(** * LSTMCell: a recurrent language model and its cells

    A shallow embedding of [src/model.py] (the model assembler
    [LSTMLanguageModel], its fully connected layer and its optimisation
    step) together with the two recurrent cells it stacks.

    Scalars are real numbers: every tensor of the program holds 32-bit
    floats, and the development states the properties of the graph for the
    exact arithmetic those floats approximate.  A tensor of rank one is a
    list of reals, a tensor of rank two a list of rows, and so on; the
    randomness drawn by a dropout operation is an explicit argument. *)

From Stdlib Require Import Reals Lra Lia ZArith FunctionalExtensionality.
From stdpp Require Import gmap strings list pretty.

Local Open Scope R_scope.

(** ** Tensors *)

Module Tensor.

Definition vec := list R.
Definition mat := list vec.

Definition zeros (n : nat) : vec := replicate n 0.
Definition zeros2 (m n : nat) : mat := replicate m (zeros n).

Definition vsum (v : vec) : R := foldr Rplus 0 v.

(** Elementwise operations on two tensors of the same shape. *)
Definition vadd (a b : vec) : vec := zip_with Rplus a b.
Definition vmul (a b : vec) : vec := zip_with Rmult a b.
Definition vscale (k : R) (a : vec) : vec := map (Rmult k) a.

(** [v . W] for a matrix [W] of declared shape [m, n], row by row. *)
Fixpoint vec_mat (v : vec) (W : mat) (n : nat) : vec :=
  match v, W with
  | vi :: v', Wi :: W' => vadd (vscale vi Wi) (vec_mat v' W' n)
  | _, _ => zeros n
  end.

(** Block [k] (of width [n]) of a row split in equal parts. *)
Definition block (n k : nat) (v : vec) : vec := take n (drop (k * n) v).

(** A variable holds a tensor of rank one or two. *)
Inductive tensor :=
| Vec (v : vec)
| Mat (m : mat).

Definition as_vec (t : tensor) : vec :=
  match t with Vec v => v | Mat m => concat m end.

Definition as_mat (t : tensor) : mat :=
  match t with Mat m => m | Vec v => [v] end.

Definition tmap (f : R -> R) (t : tensor) : tensor :=
  match t with Vec v => Vec (map f v) | Mat m => Mat (map (map f) m) end.

(** Elementwise combination of two tensors of the same shape. *)
Definition tzip (f : R -> R -> R) (a b : tensor) : tensor :=
  match a, b with
  | Vec x, Vec y => Vec (zip_with f x y)
  | Mat x, Mat y => Mat (zip_with (zip_with f) x y)
  | Vec x, Mat y => Vec (zip_with f x (concat y))
  | Mat x, Vec y => Mat (zip_with (zip_with f) x [y])
  end.

End Tensor.
Import Tensor.

(** ** The tensor framework

    The operations of the framework that the program calls, each with the
    semantics its documentation gives. *)

Module TF.

(** [tf.where] on a scalar condition. *)
Definition where_ {A : Type} (cond : bool) (x y : A) : A :=
  if cond then x else y.

Definition sigmoid (x : R) : R := 1 / (1 + exp (- x)).

(** One entry of [tf.nn.dropout(x, keep_prob)]: with [u] drawn uniformly
    from [0, 1), the entry is divided by [keep_prob] and multiplied by
    the mask [floor (keep_prob + u)]. *)
Definition dropout1 (keep_prob u x : R) : R :=
  x / keep_prob * IZR (Zfloor (keep_prob + u)).

(** The noise of a dropout operation gives the draw of each entry at
    its multi-index. *)
Definition noise := list nat -> R.

Definition uniform (u : noise) : Prop := forall ix, 0 <= u ix < 1.

Definition dropout_vec (x : vec) (keep_prob : R) (u : noise) : vec :=
  imap (fun j xj => dropout1 keep_prob (u [j]) xj) x.

Definition dropout_mat (x : mat) (keep_prob : R) (u : noise) : mat :=
  imap (fun i row => dropout_vec row keep_prob (fun ix => u (i :: ix))) x.

Definition dropout3 (x : list mat) (keep_prob : R) (u : noise) : list mat :=
  imap (fun b m => dropout_mat m keep_prob (fun ix => u (b :: ix))) x.

(** [tf.matmul] of a batch of rows with a matrix of shape [m, n], and
    [tf.add] of a bias broadcast over the rows. *)
Definition matmul (x : mat) (w : mat) (n : nat) : mat :=
  map (fun row => vec_mat row w n) x.

Definition add (x : mat) (b : vec) : mat := map (fun row => vadd row b) x.

(** [tf.nn.embedding_lookup] on the CPU: an id outside the table is an
    error. *)
Definition lookup_row (table : mat) (id : Z) : option vec :=
  if (id <? 0)%Z then None else table !! Z.to_nat id.

Definition embedding_lookup (table : mat) (ids : list (list Z))
    : option (list mat) :=
  mapM (mapM (lookup_row table)) ids.

(** [tf.stack(outputs, axis=1)] of one [batch, n] tensor per timestep. *)
Definition stack1 (batch : nat) (outputs : list mat) : list mat :=
  map (fun b => map (fun o => nth b o []) outputs) (seq 0 batch).

(** [tf.reshape(x, [-1, n])] of a tensor of shape [batch, steps, n] and
    [tf.reshape(x, [batch, steps, n])] of a tensor of shape
    [batch * steps, n]. *)
Definition flatten_batch (x : list mat) : mat := concat x.

Definition reshape3 (batch steps : nat) (x : mat) : list mat :=
  map (fun b => take steps (drop (b * steps) x)) (seq 0 batch).

(** [tf.nn.softmax] over the last axis. *)
Definition softmax (logits : vec) : vec :=
  map (fun l => exp l / vsum (map exp logits)) logits.

(** Sparse softmax cross-entropy of one row of logits with its label. *)
Definition cross_entropy (logits : vec) (label : Z) : option R :=
  if (label <? 0)%Z then None
  else l ← logits !! Z.to_nat label;
       Some (ln (vsum (map exp logits)) - l).

Definition cross_entropies (logits : list mat) (targets : list (list Z))
    : option mat :=
  mapM (fun '(rows, labels) =>
          mapM (fun '(row, label) => cross_entropy row label)
               (zip rows labels))
       (zip logits targets).

(** Sum over axis 0 of a [batch, steps] tensor, and over axis 1. *)
Definition reduce_sum_axis0 (steps : nat) (x : mat) : vec :=
  foldr vadd (zeros steps) x.

Definition reduce_sum_axis1 (x : mat) : vec := map vsum x.

Definition vdiv (a b : vec) : vec := zip_with Rdiv a b.

(** The value of [tf.contrib.seq2seq.sequence_loss]: a scalar, a vector
    or a matrix according to the two averaging flags. *)
Inductive loss_value :=
| Loss0 (x : R)
| Loss1 (v : vec)
| Loss2 (m : mat).

Definition sequence_loss (steps : nat) (logits : list mat)
    (targets : list (list Z)) (weights : mat)
    (average_across_timesteps average_across_batch : bool)
    : option loss_value :=
  xs ← cross_entropies logits targets;
  let crossent := zip_with vmul xs weights in
  Some match average_across_timesteps, average_across_batch with
       | true, true =>
           Loss0 (vsum (concat crossent) / vsum (concat weights))
       | true, false =>
           Loss1 (vdiv (reduce_sum_axis1 crossent) (reduce_sum_axis1 weights))
       | false, true =>
           Loss1 (vdiv (reduce_sum_axis0 steps crossent)
                       (reduce_sum_axis0 steps weights))
       | false, false => Loss2 crossent
       end.

Definition reduce_sum (l : loss_value) : R :=
  match l with
  | Loss0 x => x
  | Loss1 v => vsum v
  | Loss2 m => vsum (concat m)
  end.

Definition ones (batch steps : nat) : mat := replicate batch (replicate steps 1).

(** [tf.nn.l2_loss]: half the sum of the squares. *)
Definition l2_loss (t : tensor) : R :=
  vsum (map (fun x => x * x) (as_vec t)) / 2.

Definition add_n (xs : list R) : R := vsum xs.

(** [tf.global_norm] and [tf.clip_by_global_norm]: every tensor is
    multiplied by [clip_norm / max (global_norm, clip_norm)]. *)
Definition squares (ts : list tensor) : R :=
  vsum (map (fun t => vsum (map (fun x => x * x) (as_vec t))) ts).

Definition global_norm (ts : list tensor) : R := sqrt (squares ts).

Definition clip_by_global_norm (ts : list tensor) (clip_norm : R)
    : list tensor * R :=
  let norm := global_norm ts in
  (map (tmap (fun x => x * clip_norm / Rmax norm clip_norm)) ts, norm).

(** [tf.train.GradientDescentOptimizer(lr).apply_gradients]: the value
    assigned to each variable of the list. *)
Definition apply_gradients (lr : R) (grads_and_vars : list (tensor * string))
    (vals : string -> tensor) : list (string * tensor) :=
  map (fun '(g, name) => (name, tzip (fun v d => v - lr * d) (vals name) g))
      grads_and_vars.

(** Column [j] of a batch of rows, and the mean and the (biased)
    variance of a vector. *)
Definition column (j : nat) (x : mat) : vec := map (fun row => nth j row 0) x.

Definition mean (v : vec) : R := vsum v / INR (length v).

Definition variance (v : vec) : R :=
  mean (map (fun a => (a - mean v) * (a - mean v)) v).

(** [tf.contrib.layers.batch_norm] with its default arguments (a shift
    [beta], no scale, epsilon 0.001): in training the statistics are
    those of the batch, otherwise the accumulated ones.  The decay only
    enters the update of the accumulated statistics. *)
Definition batch_norm (x : mat) (decay : R) (is_training : bool)
    (beta moving_mean moving_variance : vec) : mat :=
  map (fun row =>
         imap (fun j a =>
                 let mu := if is_training then mean (column j x)
                           else nth j moving_mean 0 in
                 let var := if is_training then variance (column j x)
                            else nth j moving_variance 0 in
                 (a - mu) / sqrt (var + 1 / 1000) + nth j beta 0)
              row)
      x.

End TF.

(** ** The recurrent cells

    The file [cells.py] that defines [CustomLSTMCell] and [HyperLSTMCell]
    is not among the sources at hand: every definition of this module is
    modelled from the description of the two cells in the specification
    (sections 4.1 and 4.2), on one sample of the batch. *)

Module Cells.

(** Modelled from the spec: the learned scale and shift of one layer
    normalisation of [cells.py]. *)
Record LNParams := { gain : vec; shift : vec }.

(** Modelled from the spec: the variables of one LSTM cell of
    [cells.py], the affine transform of the concatenated input and hidden
    state and the parameters of the five normalisations (one per gate
    block, one for the memory). *)
Record LSTMWeights := {
  kernel : mat;
  bias : vec;
  ln_gate : nat -> LNParams;
  ln_cell : LNParams
}.

(** Modelled from the spec: the options of a cell of [cells.py]. *)
Record LSTMOptions := {
  num_units : nat;
  layer_norm : bool;
  recurrent_dropout : bool;
  dropout_keep_prob : R
}.

(** Modelled from the spec: the state of a cell of [cells.py], the
    hidden vector and the memory. *)
Record LSTMState := { h_of : vec; c_of : vec }.

Section Transition.

(** The guard added to the variance by layer normalisation, which the
    specification leaves open. *)
Variable epsilon : R.

(** Modelled from the spec: layer normalisation of [cells.py], the
    per-sample mean and variance over the hidden dimension followed
    by a learned scale and shift. *)
Definition layer_normalize (p : LNParams) (v : vec) : vec :=
  vadd (vmul (map (fun x => (x - TF.mean v) / sqrt (TF.variance v + epsilon))
                 v)
             (gain p))
       (shift p).

(** Modelled from the spec: the normalisation of [cells.py] is skipped
    when layer normalisation is off. *)
Definition normalize_if (on : bool) (p : LNParams) (v : vec) : vec :=
  if on then layer_normalize p v else v.

(** Modelled from the spec: steps 2 to 7 of the transition of
    [CustomLSTMCell] in [cells.py], from the four pre-activation
    blocks [i], [f], [o], [g] and the previous memory. *)
Definition gates (o : LSTMOptions) (w : LSTMWeights) (u : TF.noise)
    (pre_i pre_f pre_o pre_g c_prev : vec) : LSTMState :=
  let n_i := normalize_if (layer_norm o) (ln_gate w 0%nat) pre_i in
  let n_f := normalize_if (layer_norm o) (ln_gate w 1%nat) pre_f in
  let n_o := normalize_if (layer_norm o) (ln_gate w 2%nat) pre_o in
  let n_g := normalize_if (layer_norm o) (ln_gate w 3%nat) pre_g in
  let i := map TF.sigmoid n_i in
  let f := map TF.sigmoid n_f in
  let og := map TF.sigmoid n_o in
  let g := map tanh n_g in
  let g' := if recurrent_dropout o
            then TF.dropout_vec g (dropout_keep_prob o) u else g in
  let c_new := vadd (vmul f c_prev) (vmul i g') in
  let c_out := normalize_if (layer_norm o) (ln_cell w) c_new in
  {| h_of := vmul og (map tanh c_out); c_of := c_new |}.

(** Modelled from the spec: step 1 of the transition of [cells.py], the
    product of the concatenation [x, h] with the kernel, before the bias
    is added. *)
Definition projection (o : LSTMOptions) (w : LSTMWeights)
    (x h_prev : vec) : vec :=
  vec_mat (x ++ h_prev) (kernel w) (4 * num_units o).

(** Modelled from the spec: the block of gate [k] in the bias of the
    affine transform of [cells.py]. *)
Definition gate_bias (o : LSTMOptions) (w : LSTMWeights) (k : nat) : vec :=
  block (num_units o) k (bias w).

(** Modelled from the spec: the transition of [CustomLSTMCell] in
    [cells.py] on one sample. *)
Definition CustomLSTMCell (o : LSTMOptions) (w : LSTMWeights)
    (u : TF.noise) (x : vec) (s : LSTMState) : LSTMState :=
  let z := projection o w x (h_of s) in
  let pre k := vadd (block (num_units o) k z) (gate_bias o w k) in
  gates o w u (pre 0%nat) (pre 1%nat) (pre 2%nat) (pre 3%nat) (c_of s).

(** Modelled from the spec: the variables of a hypernetwork cell of
    [cells.py], those of the main and of the auxiliary cell and, per
    gate, the embedding of the auxiliary hidden state and the affine map
    from the embedding to the scaling vector. *)
Record HyperWeights := {
  main : LSTMWeights;
  hyper : LSTMWeights;
  embed_w : nat -> mat;
  embed_b : nat -> vec;
  scale_w : nat -> mat;
  scale_b : nat -> vec
}.

(** Modelled from the spec: the options of a hypernetwork cell of
    [cells.py]. *)
Record HyperOptions := {
  main_opts : LSTMOptions;
  num_units_hyper : nat;
  embedding_dim : nat
}.

(** Modelled from the spec: the two nested states of a hypernetwork
    cell of [cells.py]. *)
Record HyperState := { main_state : LSTMState; hyper_state : LSTMState }.

(** Modelled from the spec: the auxiliary cell of [cells.py] has its own
    size and the other options of the main cell. *)
Definition hyper_opts (o : HyperOptions) : LSTMOptions :=
  {| num_units := num_units_hyper o;
     layer_norm := layer_norm (main_opts o);
     recurrent_dropout := recurrent_dropout (main_opts o);
     dropout_keep_prob := dropout_keep_prob (main_opts o) |}.

(** Modelled from the spec: step 3 of the transition of
    [HyperLSTMCell] in [cells.py], the scaling vector of gate [k]
    projected from the auxiliary hidden state through the embedding. *)
Definition scaling (o : HyperOptions) (w : HyperWeights) (k : nat)
    (h_hyper : vec) : vec :=
  let z := vadd (vec_mat h_hyper (embed_w w k) (embedding_dim o))
                (embed_b w k) in
  vadd (vec_mat z (scale_w w k) (num_units (main_opts o))) (scale_b w k).

(** Modelled from the spec: steps 1 and 2 of the transition of
    [HyperLSTMCell] in [cells.py], the auxiliary cell reads the main
    input and the main hidden state. *)
Definition hyper_step (o : HyperOptions) (w : HyperWeights)
    (u : TF.noise) (x : vec) (s : HyperState) : LSTMState :=
  CustomLSTMCell (hyper_opts o) (hyper w) u
                 (x ++ h_of (main_state s)) (hyper_state s).

(** Modelled from the spec: steps 4 and 5 of the transition of
    [HyperLSTMCell] in [cells.py], the pre-activations of the main cell
    each multiplied by one plus its scaling vector before the bias. *)
Definition main_step (o : HyperOptions) (w : HyperWeights)
    (u : TF.noise) (x : vec) (s : LSTMState) (d : nat -> vec) : LSTMState :=
  let n := num_units (main_opts o) in
  let z := projection (main_opts o) (main w) x (h_of s) in
  let pre k := vadd (vmul (block n k z) (map (Rplus 1) (d k)))
                    (gate_bias (main_opts o) (main w) k) in
  gates (main_opts o) (main w) u
        (pre 0%nat) (pre 1%nat) (pre 2%nat) (pre 3%nat) (c_of s).

(** Modelled from the spec: the transition of [HyperLSTMCell] in
    [cells.py] on one sample; [u_hyper] and [u] are the draws of the
    dropout of the auxiliary and of the main cell. *)
Definition HyperLSTMCell (o : HyperOptions) (w : HyperWeights)
    (u_hyper u : TF.noise) (x : vec) (s : HyperState) : HyperState :=
  let s_hyper := hyper_step o w u_hyper x s in
  let d k := scaling o w k (h_of s_hyper) in
  {| main_state := main_step o w u x (main_state s) d;
     hyper_state := s_hyper |}.

(** Modelled from the spec: the shapes of the variables of a cell of
    [cells.py] with [num_units] units on an input of depth [d]. *)
Definition well_shaped (o : LSTMOptions) (d : nat) (w : LSTMWeights) : Prop :=
  length (kernel w) = (d + num_units o)%nat
  /\ Forall (fun row => length row = (4 * num_units o)%nat) (kernel w)
  /\ length (bias w) = (4 * num_units o)%nat.

(** Modelled from the spec: the output of either cell of [cells.py] is
    the new hidden state of the main cell. *)
Definition lstm_output (s : LSTMState) : vec := h_of s.

(** Modelled from the spec: the auxiliary state of [cells.py] is not
    part of the output. *)
Definition hyper_output (s : HyperState) : vec := h_of (main_state s).

End Transition.

End Cells.

(** ** Graphs: variables, placeholders and nodes

    Building the model declares variables and wires nodes; running a node
    evaluates it on a feed, on the current values of the variables and on
    the draws of the dropout operations. *)

Module Graph.

Inductive Initializer :=
| DefaultInit
| Xavier (seed : Z)
| Constant (v : list R)
| ZerosInit
| OnesInit.

Record VarDecl := {
  var_name : string;
  var_shape : list nat;
  var_init : Initializer;
  var_trainable : bool
}.

Definition Values := string -> tensor.

(** The placeholders; the two with a default may be left out of a feed. *)
Record Feed := {
  feed_inputs : list (list Z);
  feed_targets : list (list Z);
  feed_is_train : option bool;
  feed_lr_decay : option R
}.

Definition placeholder_with_default {A : Type} (d : A) (fed : option A) : A :=
  default d fed.

(** The dropout operations of the graph: the one on the embedded inputs,
    the one before the projection, and the [k]-th one inside the call of
    layer [layer] at timestep [time]. *)
Inductive DropoutOp :=
| InputDropout
| OutputDropout
| CellDropout (layer time k : nat).

Record Run := {
  feed : Feed;
  values : Values;
  rnd : DropoutOp -> TF.noise
}.

Definition node (A : Type) := Run -> option A.

Inductive error :=
| KeyError (key : string)
| ValueError (name : string)
| IndexError.

(** Graph construction threads the variable store and may raise. *)
Definition Build (A : Type) := list VarDecl -> error + (A * list VarDecl).

Definition ret {A : Type} (a : A) : Build A := fun st => inr (a, st).

Definition raise {A : Type} (e : error) : Build A := fun _ => inl e.

Definition bind {A B : Type} (m : Build A) (k : A -> Build B) : Build B :=
  fun st => match m st with
            | inl e => inl e
            | inr (a, st') => k a st'
            end.

Definition declared (name : string) (st : list VarDecl) : bool :=
  bool_decide (name ∈ map var_name st).

Definition declaration (name : string) (shape : list nat)
    (init : Initializer) (trainable : bool) : VarDecl :=
  {| var_name := name; var_shape := shape; var_init := init;
     var_trainable := trainable |}.

(** [tf.get_variable] without reuse: the name must be fresh.  The
    variable it returns is read in the values of a run. *)
Definition get_variable (name : string) (shape : list nat)
    (init : Initializer) (trainable : bool) : Build (Values -> tensor) :=
  fun st =>
    if declared name st then inl (ValueError name)
    else inr (fun vals => vals name,
              st ++ [declaration name shape init trainable]).

Fixpoint declare_all (ds : list VarDecl) : Build unit :=
  match ds with
  | [] => ret tt
  | d :: ds' =>
      bind (get_variable (var_name d) (var_shape d) (var_init d)
                         (var_trainable d))
           (fun _ => declare_all ds')
  end.

(** [config[key]] on the configuration dictionary. *)
Definition getitem (config : gmap string nat) (key : string) : Build nat :=
  match config !! key with
  | Some v => ret v
  | None => raise (KeyError key)
  end.

(** [tf.trainable_variables()], in creation order. *)
Definition trainable_variables (st : list VarDecl) : list VarDecl :=
  filter (fun d => var_trainable d = true) st.

End Graph.
Import Graph.

Declare Scope build_scope.
Delimit Scope build_scope with build.
Notation "'let*' x ':=' m 'in' k" := (bind m (fun x => k))
  (at level 10, x name, m at level 100, k at level 200) : build_scope.

(** ** The model of [src/model.py] *)

Module Model.

Local Open Scope build_scope.
Local Open Scope string_scope.

(** A possibly nested sequence of tensors: a tensor, the empty sequence,
    or a first element followed by the rest of the sequence. *)
Inductive nest (A : Type) :=
| Leaf (t : A)
| Empty
| Sequence (first rest : nest A).
Arguments Leaf {A} t.
Arguments Empty {A}.
Arguments Sequence {A} first rest.

(** [_batch_size]: descend to the first tensor of the structure and take
    its leading dimension. *)
Fixpoint _batch_size {A : Type} (inputs : nest (list A)) : option nat :=
  match inputs with
  | Leaf t => Some (length t)
  | Empty => None
  | Sequence first _ => _batch_size first
  end.

(** [tf.matmul(x, w)] and [tf.add(x, b)] on a node and a variable. *)
Definition matmul_node (x : node mat) (w : Values -> tensor) (n_out : nat)
    : node mat :=
  fun run => m ← x run; Some (TF.matmul m (as_mat (w (values run))) n_out).

Definition add_node (x : node mat) (b : Values -> tensor) : node mat :=
  fun run => m ← x run; Some (TF.add m (as_vec (b (values run)))).

(** [_full_connected]: the product with a weight variable, plus a bias
    variable initialised to zeros when [bias] is set.  [outer] is the
    enclosing variable scope. *)
Definition _full_connected (outer : string) (x : node mat)
    (weight_shape : list nat) (scope : option string) (bias : bool)
    (initializer : Initializer) : Build (node mat) :=
  let sc := outer +:+ default "fully_connected" scope in
  let n_out := List.last weight_shape 0%nat in
  let* w := get_variable (sc +:+ "/weight") weight_shape initializer true in
  let x := matmul_node x w n_out in
  if bias then
    let* b := get_variable (sc +:+ "/bias") [n_out]
                           (Constant (replicate n_out 0)) true in
    ret (add_node x b)
  else ret x.

(** The two cell classes of [cells.py] and the keyword arguments
    [self._params] they are constructed with. *)
Inductive CellClass := CustomLSTMCell | HyperLSTMCell.

Record CellArgs := {
  num_units : nat;
  layer_norm : bool;
  num_units_hyper : option nat;
  embedding_dim : option nat
}.

(** A constructed cell: its class, [self._params] and the scalar tensor
    passed as [dropout_keep_prob]. *)
Record Cell := {
  cell_class : CellClass;
  cell_args : CellArgs;
  cell_keep_prob : Run -> R
}.

(** What [cells.py] gives for a cell class: the sizes of the components
    of its state, the width of its output, the variables a call declares
    (under the scope of its layer) for an input of a given depth, and the
    call itself on a batch, given the value of the keep-probability, the
    draws of its dropouts and the values of its variables. *)
Record CellImpl := {
  state_size : CellClass -> CellArgs -> list nat;
  output_size : CellClass -> CellArgs -> nat;
  cell_variables : CellClass -> CellArgs -> nat -> list VarDecl;
  call : CellClass -> CellArgs -> R -> (nat -> TF.noise) ->
         Values -> mat -> list mat -> mat * list mat
}.

(** The optional arguments of the constructor, with their defaults. *)
Record Options := {
  type_of_lstm : option string;
  load_model : option string;
  learning_rate : R;
  gradient_clip : option R;
  batch_norm : option R;
  keep_prob : R;
  weight_decay : R;
  opt_layer_norm : bool
}.

Definition default_options : Options :=
  {| type_of_lstm := None; load_model := None; learning_rate := 1 / 10000;
     gradient_clip := None; batch_norm := None; keep_prob := 1;
     weight_decay := 0; opt_layer_norm := false |}.

(** The attributes the constructor sets before it builds the graph. *)
Record Settings := {
  _config : gmap string nat;
  _lr : R;
  _clip : option R;
  _batch_norm_decay : option R;
  _layer_norm : bool;
  _keep_prob : R;
  _weight_decay : R;
  _LSTMCell : CellClass;
  _params : CellArgs
}.

(** The attributes [_build_model] sets, and its locals [cells], [logit]
    and [t_vars]. *)
Record Network := {
  is_train : Run -> bool;
  lr_decay : Run -> R;
  cells : list Cell;
  _initial_state : node (list (list mat));
  _final_state : node (list (list mat));
  logit : node (list mat);
  _prediction : node (list mat);
  t_vars : list VarDecl;
  _loss : node R;
  _train_op : node (list (string * tensor));
  _n_var : nat
}.

Record LSTMLanguageModel := {
  settings : Settings;
  network : Network;
  variables : list VarDecl
}.

(** The value of the placeholder [is_train] (default [False]) and of the
    placeholder [lr_decay] (default 1.0) in a run. *)
Definition is_train_of (run : Run) : bool :=
  placeholder_with_default false (feed_is_train (feed run)).

Definition lr_decay_of (run : Run) : R :=
  placeholder_with_default 1 (feed_lr_decay (feed run)).

(** Updating the values of the variables of a run. *)
Definition with_values (run : Run) (vals : Values) : Run :=
  {| feed := feed run; values := vals; rnd := rnd run |}.

(** A variable declared inside a variable scope carries the scope in its
    name, and a reader inside the scope resolves names relative to it. *)
Definition scoped (scope : string) (d : VarDecl) : VarDecl :=
  {| var_name := scope +:+ "/" +:+ var_name d; var_shape := var_shape d;
     var_init := var_init d; var_trainable := var_trainable d |}.

Definition in_scope (scope : string) (vals : Values) : Values :=
  fun name => vals (scope +:+ "/" +:+ name).

(** The scope of layer [i] of a [MultiRNNCell] built under [scope]. *)
Definition cell_scope (scope : string) (i : nat) : string :=
  scope +:+ "/multi_rnn_cell/cell_" +:+ pretty i.

Definition with_lr_decay (run : Run) (d : option R) : Run :=
  {| feed := {| feed_inputs := feed_inputs (feed run);
                feed_targets := feed_targets (feed run);
                feed_is_train := feed_is_train (feed run);
                feed_lr_decay := d |};
     values := values run; rnd := rnd run |}.

(** Every dropout of a run draws from [0, 1). *)
Definition uniform_run (run : Run) : Prop :=
  forall op, TF.uniform (rnd run op).

(** A cell implementation whose calls, at a keep-probability of one, do
    not depend on the draws of their dropouts. *)
Definition keep_one_deterministic (impl : CellImpl) : Prop :=
  forall cls a (u1 u2 : nat -> TF.noise) vals x st,
    (forall k, TF.uniform (u1 k)) -> (forall k, TF.uniform (u2 k)) ->
    call impl cls a 1 u1 vals x st = call impl cls a 1 u2 vals x st.

(** Two cells whose calls return the same in two runs. *)
Definition calls_agree (impl : CellImpl) (r1 r2 : Run) (c1 c2 : Cell)
    : Prop :=
  forall i t x st,
    call impl (cell_class c1) (cell_args c1) (cell_keep_prob c1 r1)
         (fun k => rnd r1 (CellDropout i t k))
         (in_scope (cell_scope "stacked_lstm" i) (values r1)) x st
    = call impl (cell_class c2) (cell_args c2) (cell_keep_prob c2 r2)
           (fun k => rnd r2 (CellDropout i t k))
           (in_scope (cell_scope "stacked_lstm" i) (values r2)) x st.

(** The keys of the configuration the constructor reads. *)
Definition required_keys (o : Options) : list string :=
  (if decide (type_of_lstm o = Some "hypernets")
   then ["n_hidden"; "n_hidden_hyper"; "n_embedding_hyper"]
   else ["n_hidden"])
  ++ ["num_steps"; "vocab_size"; "embedding_size"].

(** The cell class the option [type_of_lstm] selects. *)
Definition selected_class (o : Options) : CellClass :=
  if decide (type_of_lstm o = Some "hypernets")
  then HyperLSTMCell else CustomLSTMCell.

(** The attributes the constructor sets, for [n] hidden units. *)
Definition selected_args (config : gmap string nat) (o : Options) (n : nat)
    : CellArgs :=
  {| num_units := n; layer_norm := opt_layer_norm o;
     num_units_hyper :=
       if decide (type_of_lstm o = Some "hypernets")
       then config !! "n_hidden_hyper" else None;
     embedding_dim :=
       if decide (type_of_lstm o = Some "hypernets")
       then config !! "n_embedding_hyper" else None |}.

Definition settings_of (config : gmap string nat) (o : Options) (n : nat)
    : Settings :=
  {| _config := config; _lr := learning_rate o; _clip := gradient_clip o;
     _batch_norm_decay := batch_norm o; _layer_norm := opt_layer_norm o;
     _keep_prob := keep_prob o; _weight_decay := weight_decay o;
     _LSTMCell := selected_class o;
     _params := selected_args config o n |}.

Definition with_keep_prob (o : Options) (p : R) : Options :=
  {| type_of_lstm := type_of_lstm o; load_model := load_model o;
     learning_rate := learning_rate o; gradient_clip := gradient_clip o;
     batch_norm := batch_norm o; keep_prob := p;
     weight_decay := weight_decay o; opt_layer_norm := opt_layer_norm o |}.

Definition prod_shape (shape : list nat) : nat := foldr Nat.mul 1%nat shape.

Definition current_variables : Build (list VarDecl) := fun st => inr (st, st).

Section Assembly.

Variable impl : CellImpl.

(** [tf.gradients(ys, xs)]: the gradient of a scalar, as a function of
    the values of the variables, with respect to the variables named
    [xs], at the current values; one tensor per name. *)
Variable gradients : (Values -> option R) -> list string -> Values -> list tensor.

(** [zero_state] of a cell: zeros for every component of its state. *)
Definition zero_state (c : Cell) (batch_size : nat) : list mat :=
  map (zeros2 batch_size) (state_size impl (cell_class c) (cell_args c)).

(** [tf.nn.rnn_cell.MultiRNNCell]: the state is the tuple of the states
    of the layers, and the output of a layer is the input of the next. *)
Definition multi_zero_state (cs : list Cell) (batch_size : nat)
    : list (list mat) :=
  map (fun c => zero_state c batch_size) cs.

Fixpoint multi_call (scope : string) (run : Run) (time : nat) (i : nat)
    (cs : list Cell) (cur_inp : mat) (state : list (list mat))
    : mat * list (list mat) :=
  match cs with
  | [] => (cur_inp, [])
  | c :: cs' =>
      let '(out, new_state) :=
        call impl (cell_class c) (cell_args c)
             (cell_keep_prob c run)
             (fun k => rnd run (CellDropout i time k))
             (in_scope (cell_scope scope i) (values run))
             cur_inp (nth i state []) in
      let '(final, new_states) :=
        multi_call scope run time (S i) cs' out state in
      (final, new_state :: new_states)
  end.

(** [inputs[:, time_step, :]]. *)
Definition slice (inputs : list mat) (time_step : nat) : mat :=
  map (fun m => nth time_step m []) inputs.

(** The loop over the timesteps: the same cells, hence the same
    variables, at every step. *)
Fixpoint unroll (scope : string) (run : Run) (cs : list Cell)
    (inputs : list mat) (steps : list nat) (state : list (list mat))
    (outputs : list mat) : list mat * list (list mat) :=
  match steps with
  | [] => (outputs, state)
  | time_step :: steps' =>
      let '(cell_output, state') :=
        multi_call scope run time_step 0 cs (slice inputs time_step) state in
      unroll scope run cs inputs steps' state' (outputs ++ [cell_output])
  end.

(** The variables the first call of the stacked cells declares. *)
Fixpoint declare_cells (scope : string) (i : nat) (cs : list Cell)
    (depth : nat) : Build unit :=
  match cs with
  | [] => ret tt
  | c :: cs' =>
      let* _ := declare_all
                  (map (scoped (cell_scope scope i))
                       (cell_variables impl (cell_class c) (cell_args c)
                                       depth)) in
      declare_cells scope (S i) cs'
                    (output_size impl (cell_class c) (cell_args c))
  end.

(** The declarations [declare_cells] adds to the store. *)
Fixpoint cells_declarations (scope : string) (i : nat) (cs : list Cell)
    (depth : nat) : list VarDecl :=
  match cs with
  | [] => []
  | c :: cs' =>
      map (scoped (cell_scope scope i))
          (cell_variables impl (cell_class c) (cell_args c) depth)
      ++ cells_declarations scope (S i) cs'
           (output_size impl (cell_class c) (cell_args c))
  end.

(** The tensors [_build_model] wires, named after its local variables. *)

Definition __keep_prob (self : Settings) : Run -> R :=
  fun run => TF.where_ (is_train_of run) (_keep_prob self) 1.

Definition __keep_prob_r (self : Settings) : Run -> R :=
  fun run => TF.where_ (is_train_of run) (_keep_prob self) 1.

Definition __weight_decay (self : Settings) : Run -> R :=
  fun run => TF.where_ (is_train_of run) (_weight_decay self) 0.

Definition embedded (embedding : Values -> tensor) : node (list mat) :=
  fun run => TF.embedding_lookup (as_mat (embedding (values run)))
                                 (feed_inputs (feed run)).

Definition batch_size (embedding : Values -> tensor) : node nat :=
  fun run => x ← embedded embedding run; _batch_size (Leaf x).

Definition inputs (self : Settings) (embedding : Values -> tensor)
    : node (list mat) :=
  fun run =>
    x ← embedded embedding run;
    Some (TF.dropout3 x (__keep_prob self run) (rnd run InputDropout)).

Definition stacked (self : Settings) : list Cell :=
  map (fun _ => {| cell_class := _LSTMCell self;
                   cell_args := _params self;
                   cell_keep_prob := __keep_prob_r self |})
      (seq 1 2).

Definition initial_state (self : Settings) (embedding : Values -> tensor)
    : node (list (list mat)) :=
  fun run =>
    b ← batch_size embedding run; Some (multi_zero_state (stacked self) b).

Definition unrolled (self : Settings) (embedding : Values -> tensor)
    (num_steps : nat) : node (list mat * list (list mat)) :=
  fun run =>
    x ← inputs self embedding run;
    state ← initial_state self embedding run;
    Some (unroll "stacked_lstm" run (stacked self) x (seq 0 num_steps)
                 state []).

Definition outputs (self : Settings) (embedding : Values -> tensor)
    (num_steps : nat) : node mat :=
  fun run =>
    r ← unrolled self embedding num_steps run;
    b ← batch_size embedding run;
    Some (TF.flatten_batch (TF.stack1 b r.1)).

Definition final_state (self : Settings) (embedding : Values -> tensor)
    (num_steps : nat) : node (list (list mat)) :=
  fun run => r ← unrolled self embedding num_steps run; Some r.2.

Definition layer (self : Settings) (embedding : Values -> tensor)
    (num_steps : nat) : node mat :=
  fun run =>
    o ← outputs self embedding num_steps run;
    Some (TF.dropout_mat o (__keep_prob self run) (rnd run OutputDropout)).

Definition batch_normalized (self : Settings) (decay : R) (x : node mat)
    (beta moving_mean moving_variance : Values -> tensor) : node mat :=
  fun run =>
    y ← x run;
    Some (TF.batch_norm y decay (is_train_of run)
                        (as_vec (beta (values run)))
                        (as_vec (moving_mean (values run)))
                        (as_vec (moving_variance (values run)))).

Definition reshaped (embedding : Values -> tensor) (num_steps : nat)
    (logit : node mat) : node (list mat) :=
  fun run =>
    x ← logit run; b ← batch_size embedding run;
    Some (TF.reshape3 b num_steps x).

Definition prediction (logit : node (list mat)) : node (list mat) :=
  fun run => x ← logit run; Some (map (map TF.softmax) x).

Definition loss (embedding : Values -> tensor) (num_steps : nat)
    (logit : node (list mat)) : node TF.loss_value :=
  fun run =>
    lg ← logit run; b ← batch_size embedding run;
    TF.sequence_loss num_steps lg (feed_targets (feed run))
                     (TF.ones b num_steps) false true.

Definition l2_loss (t_vars : list VarDecl) : Run -> R :=
  fun run =>
    TF.add_n (map (fun v => TF.l2_loss (values run (var_name v))) t_vars).

Definition total_loss (self : Settings) (loss : node TF.loss_value)
    (t_vars : list VarDecl) : node R :=
  fun run =>
    l ← loss run;
    Some (TF.reduce_sum l + __weight_decay self run * l2_loss t_vars run).

(** The gradients of the loss with respect to the variables [_var], at
    the values of the run. *)
Definition loss_gradients (loss : node R) (_var : list string) (run : Run)
    : list tensor :=
  gradients (fun vals => loss (with_values run vals)) _var (values run).

Definition train_op (self : Settings) (loss : node R) (_var : list string)
    : node (list (string * tensor)) :=
  match _clip self with
  | Some clip => fun run =>
      _ ← loss run;
      let grads := (TF.clip_by_global_norm (loss_gradients loss _var run)
                                           clip).1 in
      Some (TF.apply_gradients (_lr self) (zip grads _var) (values run))
  | None => fun run =>
      _ ← loss run;
      Some (TF.apply_gradients (_lr self)
                               (zip (loss_gradients loss _var run) _var)
                               (values run))
  end.

(** [_build_model]: the network, the loss and the optimiser step. *)
Definition _build_model (self : Settings) : Build Network :=
  let* _ := getitem (_config self) "num_steps" in
  let* _ := getitem (_config self) "num_steps" in
  (* onehot and embedding *)
  let* vocab_size := getitem (_config self) "vocab_size" in
  let* embedding_size := getitem (_config self) "embedding_size" in
  let* embedding :=
    get_variable "embedding" [vocab_size; embedding_size] DefaultInit true in
  (* build stacked LSTM instance *)
  let cells := stacked self in
  let* num_steps := getitem (_config self) "num_steps" in
  let* _ := match num_steps with
            | O => ret tt
            | S _ => declare_cells "stacked_lstm" 0 cells embedding_size
            end in
  let* _ := getitem (_config self) "n_hidden" in
  (* Prediction and Loss *)
  let layer := layer self embedding num_steps in
  let* n_hidden := getitem (_config self) "n_hidden" in
  let* vocab_size' := getitem (_config self) "vocab_size" in
  let weight := [n_hidden; vocab_size'] in
  let* logit :=
    match _batch_norm_decay self with
    | Some decay =>
        let* fc := _full_connected "fully_connected/" layer weight
                                   (Some "fc") false (Xavier 0) in
        let* beta := get_variable "fully_connected/BatchNorm/beta"
                                  [vocab_size'] ZerosInit true in
        let* moving_mean :=
          get_variable "fully_connected/BatchNorm/moving_mean"
                       [vocab_size'] ZerosInit false in
        let* moving_variance :=
          get_variable "fully_connected/BatchNorm/moving_variance"
                       [vocab_size'] OnesInit false in
        ret (batch_normalized self decay fc beta moving_mean moving_variance)
    | None => _full_connected "fully_connected/" layer weight
                              (Some "fc") true (Xavier 0)
    end in
  let* num_steps' := getitem (_config self) "num_steps" in
  let* _ := getitem (_config self) "vocab_size" in
  let logit := reshaped embedding num_steps' logit in
  (* optimization *)
  let* num_steps'' := getitem (_config self) "num_steps" in
  let loss := loss embedding num_steps'' logit in
  let* store := current_variables in
  let t_vars := trainable_variables store in
  let _loss := total_loss self loss t_vars in
  let* store' := current_variables in
  let _var := map var_name (trainable_variables store') in
  (* count trainable variables *)
  let* n_var :=
    match t_vars with
    | [] => raise IndexError
    | v :: rest =>
        ret (foldl (fun acc var => (acc + prod_shape (var_shape var))%nat)
                   (prod_shape (var_shape v)) rest)
    end in
  ret {| is_train := is_train_of; lr_decay := lr_decay_of; cells := cells;
         _initial_state := initial_state self embedding;
         _final_state := final_state self embedding num_steps;
         logit := logit; _prediction := prediction logit; t_vars := t_vars;
         _loss := _loss; _train_op := train_op self _loss _var;
         _n_var := n_var |}.

(** The variables of the graph, as [tf.get_variable] returns them. *)
Definition embedding_var : Values -> tensor := fun vals => vals "embedding".

Definition fc_weight : Values -> tensor :=
  fun vals => vals "fully_connected/fc/weight".

Definition fc_bias : Values -> tensor :=
  fun vals => vals "fully_connected/fc/bias".

Definition bn_var (what : string) : Values -> tensor :=
  fun vals => vals ("fully_connected/BatchNorm/" +:+ what).

(** What a successful [_build_model] wires for a configuration of [T]
    steps, [V] words, embeddings of size [E] and [n] hidden units: the
    node of the logits before they are reshaped, and the variables of the
    graph in the order of their creation. *)
Definition projected (self : Settings) (T V : nat) : node mat :=
  let x := matmul_node (layer self embedding_var T) fc_weight V in
  match _batch_norm_decay self with
  | Some decay =>
      batch_normalized self decay x (bn_var "beta") (bn_var "moving_mean")
                       (bn_var "moving_variance")
  | None => add_node x fc_bias
  end.

Definition projection_variables (self : Settings) (n V : nat)
    : list VarDecl :=
  declaration "fully_connected/fc/weight" [n; V] (Xavier 0) true
  :: match _batch_norm_decay self with
     | Some _ =>
         [declaration "fully_connected/BatchNorm/beta" [V] ZerosInit true;
          declaration "fully_connected/BatchNorm/moving_mean" [V] ZerosInit
                      false;
          declaration "fully_connected/BatchNorm/moving_variance" [V]
                      OnesInit false]
     | None =>
         [declaration "fully_connected/fc/bias" [V]
                      (Constant (replicate V 0)) true]
     end.

Definition graph_variables (self : Settings) (T V E n : nat) : list VarDecl :=
  (declaration "embedding" [V; E] DefaultInit true
   :: match T with
      | O => []
      | S _ => cells_declarations "stacked_lstm" 0 (stacked self) E
      end
   ++ projection_variables self n V)%list.

(** The constructor: the cell class and its arguments from the
    configuration, then the graph. *)
Definition __init__ (config : gmap string nat) (o : Options)
    : Build LSTMLanguageModel :=
  let* cls_params :=
    if decide (type_of_lstm o = Some "hypernets") then
      let* n_hidden := getitem config "n_hidden" in
      let* n_hidden_hyper := getitem config "n_hidden_hyper" in
      let* n_embedding_hyper := getitem config "n_embedding_hyper" in
      ret (HyperLSTMCell,
           {| num_units := n_hidden; layer_norm := opt_layer_norm o;
              num_units_hyper := Some n_hidden_hyper;
              embedding_dim := Some n_embedding_hyper |})
    else
      let* n_hidden := getitem config "n_hidden" in
      ret (CustomLSTMCell,
           {| num_units := n_hidden; layer_norm := opt_layer_norm o;
              num_units_hyper := None; embedding_dim := None |}) in
  let self :=
    {| _config := config; _lr := learning_rate o; _clip := gradient_clip o;
       _batch_norm_decay := batch_norm o; _layer_norm := opt_layer_norm o;
       _keep_prob := keep_prob o; _weight_decay := weight_decay o;
       _LSTMCell := cls_params.1; _params := cls_params.2 |} in
  let* net := _build_model self in
  let* store := current_variables in
  ret {| settings := self; network := net; variables := store |}.

(** Constructing a model in a fresh graph. *)
Definition construct (config : gmap string nat) (o : Options)
    : error + LSTMLanguageModel :=
  match __init__ config o [] with
  | inl e => inl e
  | inr (m, _) => inr m
  end.

End Assembly.

(** Predicates and updates used to state the properties of the model. *)

(** A run on other input tokens. *)
Definition with_inputs (run : Run) (ids : list (list Z)) : Run :=
  {| feed := {| feed_inputs := ids;
                feed_targets := feed_targets (feed run);
                feed_is_train := feed_is_train (feed run);
                feed_lr_decay := feed_lr_decay (feed run) |};
     values := values run; rnd := rnd run |}.

(** Every token id indexes a row of the embedding table. *)
Definition valid_tokens (table : mat) (ids : list (list Z)) : Prop :=
  Forall (Forall (fun id => (0 <= id < Z.of_nat (length table))%Z)) ids.

(** A row of entries that are not negative and sum to one. *)
Definition distribution (row : vec) : Prop :=
  Forall (fun p => 0 <= p) row /\ vsum row = 1.

(** A tensor of shape [B, T, V]. *)
Definition has_shape (B T V : nat) (x : list mat) : Prop :=
  length x = B
  /\ Forall (fun s => length s = T /\ Forall (fun row => length row = V) s) x.

(** The names of the variables of a store are pairwise distinct, and a
    construction step that keeps them so. *)
Definition distinct_names (st : list VarDecl) : Prop :=
  NoDup (map var_name st).

Definition keeps_distinct {A : Type} (m : Build A) : Prop :=
  forall st a st',
    distinct_names st -> m st = inr (a, st') -> distinct_names st'.

(** The number of scalars the trainable variables of a store hold. *)
Definition count_parameters (st : list VarDecl) : nat :=
  foldr (fun d acc => (prod_shape (var_shape d) + acc)%nat) 0%nat
        (trainable_variables st).

(** The entry of sequence [b] at timestep [t] in a batch of sequences. *)
Definition entry {A : Type} (x : list (list A)) (b t : nat) : option A :=
  match x !! b with
  | Some s => s !! t
  | None => None
  end.

(** Two batches of sequences of one size that agree on their first [k]
    timesteps, and the same for two tensors of shape [batch * T, n],
    whose row [b * T + t] belongs to sequence [b] and timestep [t]. *)
Definition agree_until {A : Type} (k : nat) (x1 x2 : list (list A)) : Prop :=
  length x1 = length x2
  /\ forall b t, (t < k)%nat -> entry x1 b t = entry x2 b t.

Definition rows_agree_until {A : Type} (T k : nat) (y1 y2 : list A) : Prop :=
  length y1 = length y2
  /\ forall b t, (t < k)%nat -> (t < T)%nat ->
                 y1 !! (b * T + t)%nat = y2 !! (b * T + t)%nat.

End Model.

(** ** The cells as the model calls them

    The cells of [Cells] on a batch, reading their variables in the
    scope of their layer.  Like [Cells], this module is modelled from the
    specification: the names of the variables and the order of the
    components of the states are its own. *)

Module BatchCells.

Import Model.
Local Open Scope string_scope.

Section Impl.

Variable epsilon : R.
Variable recurrent_dropout : bool.

(** Modelled from the spec: the options of a cell of [cells.py] from
    the keyword arguments of the model. *)
Definition cell_options (a : CellArgs) (keep : R) : Cells.LSTMOptions :=
  {| Cells.num_units := num_units a;
     Cells.layer_norm := layer_norm a;
     Cells.recurrent_dropout := recurrent_dropout;
     Cells.dropout_keep_prob := keep |}.

(** Modelled from the spec: the options of a hypernetwork cell of
    [cells.py] from the keyword arguments of the model. *)
Definition hyper_options (a : CellArgs) (keep : R) : Cells.HyperOptions :=
  {| Cells.main_opts := cell_options a keep;
     Cells.num_units_hyper := default 0%nat (num_units_hyper a);
     Cells.embedding_dim := default 0%nat (embedding_dim a) |}.

(** Modelled from the spec: the name of the normalisation of gate [k]
    in [cells.py]. *)
Definition ln_name (scope : string) (k : nat) : string :=
  scope +:+ "ln_" +:+ pretty k.

(** Modelled from the spec: the variables of one normalisation of
    [cells.py]. *)
Definition read_ln (vals : Values) (scope : string) : Cells.LNParams :=
  {| Cells.gain := as_vec (vals (scope +:+ "/gain"));
     Cells.shift := as_vec (vals (scope +:+ "/shift")) |}.

(** Modelled from the spec: the variables of one cell of [cells.py]. *)
Definition read_lstm (vals : Values) (scope : string) : Cells.LSTMWeights :=
  {| Cells.kernel := as_mat (vals (scope +:+ "kernel"));
     Cells.bias := as_vec (vals (scope +:+ "bias"));
     Cells.ln_gate := fun k => read_ln vals (ln_name scope k);
     Cells.ln_cell := read_ln vals (scope +:+ "ln_c") |}.

(** Modelled from the spec: the name of a variable of gate [k] of the
    hypernetwork cell of [cells.py]. *)
Definition gate_name (what : string) (k : nat) : string :=
  what +:+ "_" +:+ pretty k.

(** Modelled from the spec: the variables of one hypernetwork cell of
    [cells.py]. *)
Definition read_hyper (vals : Values) : Cells.HyperWeights :=
  {| Cells.main := read_lstm vals "main/";
     Cells.hyper := read_lstm vals "hyper/";
     Cells.embed_w := fun k => as_mat (vals (gate_name "embed_w" k));
     Cells.embed_b := fun k => as_vec (vals (gate_name "embed_b" k));
     Cells.scale_w := fun k => as_mat (vals (gate_name "scale_w" k));
     Cells.scale_b := fun k => as_vec (vals (gate_name "scale_b" k)) |}.

(** Modelled from the spec: the draws of dropout [k] of a call of
    [cells.py] for the sample of row [r]. *)
Definition row_noise (u : nat -> TF.noise) (k r : nat) : TF.noise :=
  fun ix => u k (r :: ix).

(** Modelled from the spec: component [j] of the state of a cell of
    [cells.py]. *)
Definition component (state : list mat) (j : nat) : mat := nth j state [].

(** Modelled from the spec: the call of [CustomLSTMCell] in [cells.py]
    on a batch, one transition per sample. *)
Definition lstm_call (a : CellArgs) (keep : R)
    (u : nat -> TF.noise) (vals : Values) (x : mat) (state : list mat)
    : mat * list mat :=
  let rows :=
    imap (fun r '(xr, (hr, cr)) =>
            Cells.CustomLSTMCell epsilon (cell_options a keep)
              (read_lstm vals EmptyString) (row_noise u 0 r) xr
              {| Cells.h_of := hr; Cells.c_of := cr |})
         (zip x (zip (component state 0) (component state 1))) in
  (map Cells.h_of rows, [map Cells.h_of rows; map Cells.c_of rows]).

(** Modelled from the spec: the call of [HyperLSTMCell] in [cells.py]
    on a batch, one transition per sample. *)
Definition hyper_call (a : CellArgs) (keep : R)
    (u : nat -> TF.noise) (vals : Values) (x : mat) (state : list mat)
    : mat * list mat :=
  let rows :=
    imap (fun r '(xr, (hr, cr, (hh, ch))) =>
            Cells.HyperLSTMCell epsilon (hyper_options a keep)
              (read_hyper vals) (row_noise u 1 r) (row_noise u 0 r) xr
              {| Cells.main_state := {| Cells.h_of := hr; Cells.c_of := cr |};
                 Cells.hyper_state :=
                   {| Cells.h_of := hh; Cells.c_of := ch |} |})
         (zip x (zip (zip (component state 0) (component state 1))
                     (zip (component state 2) (component state 3)))) in
  let ms := map Cells.main_state rows in
  let hs := map Cells.hyper_state rows in
  (map Cells.h_of ms,
   [map Cells.h_of ms; map Cells.c_of ms;
    map Cells.h_of hs; map Cells.c_of hs]).

(** Modelled from the spec: a trainable variable of [cells.py]. *)
Definition var (name : string) (shape : list nat) : VarDecl :=
  {| var_name := name; var_shape := shape; var_init := DefaultInit;
     var_trainable := true |}.

(** Modelled from the spec: the variables one normalisation of
    [cells.py] declares. *)
Definition ln_variables (scope : string) (n : nat) : list VarDecl :=
  [var (scope +:+ "/gain") [n]; var (scope +:+ "/shift") [n]].

(** Modelled from the spec: the variables one cell of [cells.py]
    declares, with those of its normalisations only when layer
    normalisation is on. *)
Definition lstm_variables (on : bool) (scope : string) (depth n : nat)
    : list VarDecl :=
  [var (scope +:+ "kernel") [(depth + n)%nat; (4 * n)%nat];
   var (scope +:+ "bias") [(4 * n)%nat]]
  ++ (if on
      then concat (map (fun k => ln_variables (ln_name scope k) n) (seq 0 4))
           ++ ln_variables (scope +:+ "ln_c") n
      else []).

(** Modelled from the spec: the variables of gate [k] of the
    hypernetwork cell of [cells.py]. *)
Definition gate_variables (n n_hyper n_emb k : nat) : list VarDecl :=
  [var (gate_name "embed_w" k) [n_hyper; n_emb];
   var (gate_name "embed_b" k) [n_emb];
   var (gate_name "scale_w" k) [n_emb; n];
   var (gate_name "scale_b" k) [n]].

(** Modelled from the spec: the variables one hypernetwork cell of
    [cells.py] declares. *)
Definition hyper_variables (a : CellArgs) (depth : nat) : list VarDecl :=
  let n := num_units a in
  let n_hyper := default 0%nat (num_units_hyper a) in
  let n_emb := default 0%nat (embedding_dim a) in
  lstm_variables (layer_norm a) "main/" depth n
  ++ lstm_variables (layer_norm a) "hyper/" (depth + n) n_hyper
  ++ concat (map (gate_variables n n_hyper n_emb) (seq 0 4)).

(** Modelled from the spec: the interface of the two classes of
    [cells.py], whose states are the pair (h, c) and, for the
    hypernetwork cell, that pair followed by the pair of the auxiliary
    cell.  The names of the variables are this development's. *)
Definition cells_py : CellImpl :=
  {| state_size := fun cls a =>
       match cls with
       | CustomLSTMCell => [num_units a; num_units a]
       | HyperLSTMCell =>
           [num_units a; num_units a;
            default 0%nat (num_units_hyper a);
            default 0%nat (num_units_hyper a)]
       end;
     output_size := fun _ a => num_units a;
     cell_variables := fun cls a depth =>
       match cls with
       | CustomLSTMCell =>
           lstm_variables (layer_norm a) EmptyString depth (num_units a)
       | HyperLSTMCell => hyper_variables a depth
       end;
     call := fun cls =>
       match cls with
       | CustomLSTMCell => lstm_call
       | HyperLSTMCell => hyper_call
       end |}.

End Impl.

End BatchCells.

(** ** Sample data *)

Module Examples.

Import Model.
Local Open Scope string_scope.

(** A cell of one unit, without layer normalisation. *)
Definition unit_options : Cells.LSTMOptions :=
  {| Cells.num_units := 1; Cells.layer_norm := false;
     Cells.recurrent_dropout := true; Cells.dropout_keep_prob := 1 |}.

Definition no_ln : Cells.LNParams := {| Cells.gain := []; Cells.shift := [] |}.

(** Weights whose only non-zero entry is the bias of the candidate. *)
Definition candidate_biased : Cells.LSTMWeights :=
  {| Cells.kernel := [[0; 0; 0; 0]; [0; 0; 0; 0]];
     Cells.bias := [0; 0; 0; 1];
     Cells.ln_gate := fun _ => no_ln; Cells.ln_cell := no_ln |}.

(** Weights with a bias on the three gates and none on the candidate. *)
Definition gate_biased : Cells.LSTMWeights :=
  {| Cells.kernel := [[1; 2; 3; 4]; [5; 6; 7; 8]];
     Cells.bias := [1; 2; 3; 0];
     Cells.ln_gate := fun _ => no_ln; Cells.ln_cell := no_ln |}.

Definition zero_noise : TF.noise := fun _ => 0.

Definition half_noise : TF.noise := fun _ => 1 / 2.

Definition zero_state1 : Cells.LSTMState :=
  {| Cells.h_of := zeros 1; Cells.c_of := zeros 1 |}.

(** A hypernetwork cell whose scaling projections are zero. *)
Definition hyper_unit_options : Cells.HyperOptions :=
  {| Cells.main_opts := unit_options; Cells.num_units_hyper := 1;
     Cells.embedding_dim := 1 |}.

Definition hyper_kernel : Cells.LSTMWeights :=
  {| Cells.kernel := [[1; 0; 0; 1]; [0; 1; 0; 1]; [0; 0; 1; 1]];
     Cells.bias := [0; 0; 0; 1];
     Cells.ln_gate := fun _ => no_ln; Cells.ln_cell := no_ln |}.

Definition unscaled : Cells.HyperWeights :=
  {| Cells.main := gate_biased; Cells.hyper := hyper_kernel;
     Cells.embed_w := fun _ => [[1]]; Cells.embed_b := fun _ => [1];
     Cells.scale_w := fun _ => [[0]]; Cells.scale_b := fun _ => [0] |}.

Definition hyper_zero_state1 : Cells.HyperState :=
  {| Cells.main_state := zero_state1; Cells.hyper_state := zero_state1 |}.

(** A configuration of one step, two words, embeddings of size one and
    one hidden unit, and the same for the hypernetwork variant. *)
Definition tiny_config : gmap string nat :=
  <["num_steps" := 1%nat]>
    (<["vocab_size" := 2%nat]>
       (<["embedding_size" := 1%nat]>
          (<["n_hidden" := 1%nat]>
             (<["n_hidden_hyper" := 1%nat]>
                (<["n_embedding_hyper" := 1%nat]> ∅))))).

Definition hypernets : Options :=
  {| type_of_lstm := Some "hypernets"; load_model := None;
     learning_rate := 1 / 10000; gradient_clip := None; batch_norm := None;
     keep_prob := 1; weight_decay := 0; opt_layer_norm := false |}.

Definition regularized : Options :=
  {| type_of_lstm := None; load_model := None; learning_rate := 1 / 10;
     gradient_clip := Some 1; batch_norm := None; keep_prob := 1 / 2;
     weight_decay := 1 / 100; opt_layer_norm := false |}.

Definition batch_normalized_options (p : R) : Options :=
  {| type_of_lstm := None; load_model := None; learning_rate := 1 / 10000;
     gradient_clip := None; batch_norm := Some (95 / 100); keep_prob := p;
     weight_decay := 0; opt_layer_norm := false |}.

(** The cells of [Cells], with recurrent dropout. *)
Definition cells_py : CellImpl := BatchCells.cells_py (1 / 1000) true.

(** Gradients of norm five on every variable. *)
Definition steep : (Values -> option R) -> list string -> Values
                   -> list tensor :=
  fun _ names _ => map (fun _ => Vec [3; 4]) names.

(** Values of the variables: a zero embedding, zero biases and a zero
    projection, accumulated batch statistics that have drifted from their
    initial values, and zero kernels for the two cells. *)
Definition drifted : Values := fun name =>
  if decide (name = "embedding") then Mat [[0]; [0]]
  else if decide (name = "fully_connected/fc/weight") then Mat [[0; 0]]
  else if decide (name = "fully_connected/fc/bias") then Vec [0; 0]
  else if decide (name = "fully_connected/BatchNorm/beta") then Vec [0; 0]
  else if decide (name = "fully_connected/BatchNorm/moving_mean")
       then Vec [1; 0]
  else if decide (name = "fully_connected/BatchNorm/moving_variance")
       then Vec [999 / 1000; 999 / 1000]
  else if decide (name = "stacked_lstm/multi_rnn_cell/cell_0/bias")
       then Vec [0; 0; 0; 0]
  else if decide (name = "stacked_lstm/multi_rnn_cell/cell_1/bias")
       then Vec [0; 0; 0; 0]
  else Mat [[0; 0; 0; 0]; [0; 0; 0; 0]].

Definition quiet : DropoutOp -> TF.noise := fun _ _ => 0.

Definition noisy : DropoutOp -> TF.noise := fun _ _ => 1 / 2.

(** A batch of one sequence of one token. *)
Definition one_token (is_train : option bool) (u : DropoutOp -> TF.noise)
    : Run :=
  {| feed := {| feed_inputs := [[0%Z]]; feed_targets := [[1%Z]];
                feed_is_train := is_train; feed_lr_decay := None |};
     values := drifted; rnd := u |}.

(** Gradients that vanish on every variable. *)
Definition level : (Values -> option R) -> list string -> Values
                   -> list tensor :=
  fun _ names _ => map (fun _ => Vec [0; 0]) names.

(** The same configuration with two timesteps, and a batch of one
    sequence of two tokens in training mode. *)
Definition two_steps : gmap string nat :=
  <["num_steps" := 2%nat]> tiny_config.

Definition two_tokens : Run :=
  {| feed := {| feed_inputs := [[0%Z; 1%Z]]; feed_targets := [[1%Z; 0%Z]];
                feed_is_train := Some true; feed_lr_decay := None |};
     values := drifted; rnd := noisy |}.

End Examples.

(** * Properties *)

Ltac unfold_ops :=
  unfold zeros, zeros2, vadd, vmul, vscale, block in *.

Ltac by_entries v n IH :=
  unfold_ops; revert n; induction v as [|? v IH]; intros [|n] ?;
  cbn [zip_with replicate map length] in *; try lia; try reflexivity;
  f_equal; [lra | apply IH; lia].

(** ** Tensors of zeros *)

Section TensorFacts.

Lemma length_zeros n : length (zeros n) = n.
Proof. apply length_replicate. Qed.

Lemma length_block_le n k v : (length (block n k v) <= n)%nat.
Proof. unfold block. rewrite length_take. lia. Qed.

Lemma length_block n k v :
  ((k + 1) * n <= length v)%nat -> length (block n k v) = n.
Proof. unfold block. rewrite length_take, length_drop. lia. Qed.

Lemma vmul_one_plus_zeros v n :
  (length v <= n)%nat -> vmul v (map (Rplus 1) (zeros n)) = v.
Proof. by_entries v n IH. Qed.

Lemma vadd_zeros_l v n : (length v <= n)%nat -> vadd (zeros n) v = v.
Proof. by_entries v n IH. Qed.

Lemma vadd_zeros_zeros n : vadd (zeros n) (zeros n) = zeros n.
Proof. apply vadd_zeros_l. rewrite length_zeros. lia. Qed.

Lemma vmul_zeros_r v n : length v = n -> vmul v (zeros n) = zeros n.
Proof. by_entries v n IH. Qed.

Lemma vscale_zero v : vscale 0 v = zeros (length v).
Proof.
  unfold_ops. induction v as [|a v IH]; cbn [map length replicate];
    [reflexivity|].
  f_equal; [lra | apply IH].
Qed.

Lemma vec_mat_zeros m W n :
  Forall (fun row => length row = n) W ->
  vec_mat (zeros m) W n = zeros n.
Proof.
  intros HW. revert m.
  induction HW as [|row W Hrow HW IH]; intros [|m]; try reflexivity.
  change (vadd (vscale 0 row) (vec_mat (zeros m) W n) = zeros n).
  rewrite IH, vscale_zero, Hrow. apply vadd_zeros_zeros.
Qed.

Lemma block_zeros n k m :
  ((k + 1) * n <= m)%nat -> block n k (zeros m) = zeros n.
Proof.
  intros H. unfold block, zeros. rewrite drop_replicate, take_replicate.
  f_equal. lia.
Qed.

Lemma map_zeros f n : f 0 = 0 -> map f (zeros n) = zeros n.
Proof.
  intros H. unfold zeros. induction n; cbn [replicate map]; congruence.
Qed.

End TensorFacts.

(** ** Activations and dropout *)

Section ActivationFacts.

Lemma tanh_0 : tanh 0 = 0.
Proof. unfold tanh. rewrite sinh_0. unfold Rdiv. ring. Qed.

Lemma sigmoid_pos x : 0 < TF.sigmoid x.
Proof.
  unfold TF.sigmoid. pose proof (exp_pos (- x)).
  apply Rdiv_lt_0_compat; lra.
Qed.

Lemma cosh_pos x : 0 < cosh x.
Proof.
  unfold cosh. pose proof (exp_pos x). pose proof (exp_pos (- x)). lra.
Qed.

Lemma tanh_pos x : 0 < x -> 0 < tanh x.
Proof.
  intros Hx. unfold tanh. apply Rdiv_lt_0_compat; [|apply cosh_pos].
  rewrite <- sinh_0. now apply sinh_lt.
Qed.

(** With a keep-probability of one the mask of every entry is one. *)
Lemma dropout1_one u x : 0 <= u < 1 -> TF.dropout1 1 u x = x.
Proof.
  intros Hu. unfold TF.dropout1.
  rewrite (Zfloor_eq 1 (1 + u)) by lra. field.
Qed.

Lemma dropout1_zero keep u : TF.dropout1 keep u 0 = 0.
Proof. unfold TF.dropout1, Rdiv. ring. Qed.

Lemma dropout_vec_one x u : TF.uniform u -> TF.dropout_vec x 1 u = x.
Proof.
  intros Hu. unfold TF.dropout_vec.
  rewrite <- (list_fmap_id x) at 2. rewrite <- imap_const.
  apply imap_ext. intros j xj _. apply dropout1_one, Hu.
Qed.

Lemma dropout_mat_one x u : TF.uniform u -> TF.dropout_mat x 1 u = x.
Proof.
  intros Hu. unfold TF.dropout_mat.
  rewrite <- (list_fmap_id x) at 2. rewrite <- imap_const.
  apply imap_ext. intros i row _. apply dropout_vec_one.
  intros ix. apply Hu.
Qed.

Lemma dropout3_one x u : TF.uniform u -> TF.dropout3 x 1 u = x.
Proof.
  intros Hu. unfold TF.dropout3.
  rewrite <- (list_fmap_id x) at 2. rewrite <- imap_const.
  apply imap_ext. intros b m _. apply dropout_mat_one.
  intros ix. apply Hu.
Qed.

Lemma dropout_vec_zeros n keep u : TF.dropout_vec (zeros n) keep u = zeros n.
Proof.
  unfold TF.dropout_vec, zeros. revert u.
  induction n as [|n IH]; intros u; [reflexivity|].
  cbn [replicate imap]. rewrite dropout1_zero. f_equal.
  apply (IH (fun ix => u (map S ix))).
Qed.

End ActivationFacts.


(** ** The recurrent cells *)

Section CellFacts.

Import Cells.

Variable epsilon : R.

(** C1. When the four scaling vectors projected from the new auxiliary
    hidden state are all zero, one transition of [HyperLSTMCell] takes
    the state (h, c) of the main cell to the state that one transition of
    [CustomLSTMCell] with the weights of the main cell reaches from
    (h, c) on the same input, and both emit the same output. *)
Theorem hyper_zero_scaling_is_lstm (o : HyperOptions) (w : HyperWeights)
    (u_hyper u : TF.noise) (x : vec) (s : HyperState) :
  (forall k, (k < 4)%nat ->
     scaling o w k (h_of (hyper_step epsilon o w u_hyper x s))
     = zeros (num_units (main_opts o))) ->
  main_state (HyperLSTMCell epsilon o w u_hyper u x s)
  = CustomLSTMCell epsilon (main_opts o) (main w) u x (main_state s)
  /\ hyper_output (HyperLSTMCell epsilon o w u_hyper u x s)
     = lstm_output
         (CustomLSTMCell epsilon (main_opts o) (main w) u x (main_state s)).
Proof.
  intros Hzero.
  assert (main_state (HyperLSTMCell epsilon o w u_hyper u x s)
          = CustomLSTMCell epsilon (main_opts o) (main w) u x (main_state s))
    as Hstate.
  { unfold HyperLSTMCell, main_step, CustomLSTMCell.
    cbn [main_state].
    rewrite !Hzero by lia.
    rewrite !vmul_one_plus_zeros by apply length_block_le.
    reflexivity. }
  split; [exact Hstate|].
  unfold hyper_output, lstm_output. now rewrite Hstate.
Qed.

Lemma gates_zero_candidate (o : LSTMOptions) (w : LSTMWeights) (u : TF.noise)
    (pre_i pre_f pre_o : vec) (n : nat) :
  layer_norm o = false ->
  length pre_i = n -> length pre_f = n -> length pre_o = n ->
  h_of (gates epsilon o w u pre_i pre_f pre_o (zeros n) (zeros n)) = zeros n.
Proof.
  intros Hln Hi Hf Ho. unfold gates. rewrite Hln. cbn [normalize_if h_of].
  rewrite (map_zeros tanh) by apply tanh_0.
  assert (forall g, g = zeros n ->
            vmul (map TF.sigmoid pre_o)
                 (map tanh (vadd (vmul (map TF.sigmoid pre_f) (zeros n))
                                 (vmul (map TF.sigmoid pre_i) g)))
            = zeros n) as Hg.
  { intros g ->.
    rewrite !vmul_zeros_r by (rewrite length_map; assumption).
    rewrite vadd_zeros_zeros, (map_zeros tanh) by apply tanh_0.
    apply vmul_zeros_r. now rewrite length_map. }
  apply Hg. destruct (recurrent_dropout o); [|reflexivity].
  apply dropout_vec_zeros.
Qed.

(** C2. Without layer normalisation and with zero biases (a zero bias
    on the candidate block is enough), one transition of
    [CustomLSTMCell] from the all-zero state on an all-zero input emits
    the zero vector, whatever the kernel, the biases of the three gates
    and the draws of the recurrent dropout.  The keep-probability is
    positive, as the dropout that divides by it requires. *)
Theorem lstm_zero_state_zero_input (o : LSTMOptions) (w : LSTMWeights)
    (u : TF.noise) (d : nat) :
  layer_norm o = false ->
  0 < dropout_keep_prob o ->
  well_shaped o d w ->
  gate_bias o w 3 = zeros (num_units o) ->
  lstm_output
    (CustomLSTMCell epsilon o w u (zeros d)
       {| h_of := zeros (num_units o); c_of := zeros (num_units o) |})
  = zeros (num_units o).
Proof.
  intros Hln _ (Hrows & Hcols & Hbias) Hg.
  unfold lstm_output, CustomLSTMCell, projection. cbn [h_of c_of].
  assert (zeros d ++ zeros (num_units o) = zeros (d + num_units o)) as ->.
  { unfold zeros. now rewrite replicate_add. }
  rewrite vec_mat_zeros by assumption.
  rewrite !block_zeros by lia.
  rewrite Hg, vadd_zeros_zeros.
  rewrite !vadd_zeros_l by apply length_block_le.
  apply gates_zero_candidate; [assumption|..];
    unfold gate_bias; apply length_block; lia.
Qed.

(** With a keep-probability of one the transition does not depend on the
    draws of the recurrent dropout. *)
Lemma lstm_keep_one (o : LSTMOptions) (w : LSTMWeights) (u u' : TF.noise)
    (x : vec) (s : LSTMState) :
  dropout_keep_prob o = 1 -> TF.uniform u -> TF.uniform u' ->
  CustomLSTMCell epsilon o w u x s = CustomLSTMCell epsilon o w u' x s.
Proof.
  intros Hk Hu Hu'. unfold CustomLSTMCell, gates. rewrite Hk.
  now rewrite !dropout_vec_one by assumption.
Qed.

Lemma hyper_keep_one (o : HyperOptions) (w : HyperWeights)
    (v v' u u' : TF.noise) (x : vec) (s : HyperState) :
  dropout_keep_prob (main_opts o) = 1 ->
  TF.uniform v -> TF.uniform v' -> TF.uniform u -> TF.uniform u' ->
  HyperLSTMCell epsilon o w v u x s = HyperLSTMCell epsilon o w v' u' x s.
Proof.
  intros Hk Hv Hv' Hu Hu'. unfold HyperLSTMCell, hyper_step.
  rewrite (lstm_keep_one (hyper_opts o) (hyper w) v v') by assumption.
  unfold main_step, gates. rewrite Hk.
  now rewrite !dropout_vec_one by assumption.
Qed.

End CellFacts.

Section CellExamples.

Import Cells Examples.

(** The witness of C1: a hypernetwork cell whose scaling projections are
    zero. *)
Lemma hyper_zero_scaling_is_lstm_witness :
  (forall k, (k < 4)%nat ->
     scaling hyper_unit_options unscaled k
       (h_of (hyper_step (1 / 1000) hyper_unit_options unscaled half_noise
                [1] hyper_zero_state1))
     = zeros (num_units (main_opts hyper_unit_options)))
  /\ main_state (HyperLSTMCell (1 / 1000) hyper_unit_options unscaled
                   half_noise zero_noise [1] hyper_zero_state1)
     = CustomLSTMCell (1 / 1000) unit_options gate_biased zero_noise [1]
         zero_state1
  /\ hyper_output (HyperLSTMCell (1 / 1000) hyper_unit_options unscaled
                     half_noise zero_noise [1] hyper_zero_state1)
     = lstm_output (CustomLSTMCell (1 / 1000) unit_options gate_biased
                      zero_noise [1] zero_state1).
Proof.
  assert (forall k, (k < 4)%nat ->
     scaling hyper_unit_options unscaled k
       (h_of (hyper_step (1 / 1000) hyper_unit_options unscaled half_noise
                [1] hyper_zero_state1))
     = zeros (num_units (main_opts hyper_unit_options))) as Hz.
  { intros k _. cbn. f_equal. ring. }
  split; [exact Hz|].
  exact (hyper_zero_scaling_is_lstm (1 / 1000) hyper_unit_options unscaled
           half_noise zero_noise [1] hyper_zero_state1 Hz).
Defined.

(** The bias of the candidate has to be zero for that: with a bias of
    one on the candidate, the cell emits a positive value from the
    all-zero state on the all-zero input. *)
Lemma lstm_zero_state_biased_candidate :
  layer_norm unit_options = false
  /\ lstm_output
       (CustomLSTMCell (1 / 1000) unit_options candidate_biased zero_noise
          (zeros 1) zero_state1)
     <> zeros 1.
Proof.
  split; [reflexivity|].
  cbn. replace (0 * 0 + (0 * 0 + 0) + 0) with 0 by ring.
  replace (0 * 0 + (0 * 0 + 0) + 1) with 1 by ring.
  rewrite dropout1_one by (unfold zero_noise; lra).
  intros H. injection H as H.
  pose proof (sigmoid_pos 0) as Hs.
  assert (0 < tanh 1) as Ht by (apply tanh_pos; lra).
  assert (0 < tanh (TF.sigmoid 0 * 0 + TF.sigmoid 0 * tanh 1)) as Hc.
  { apply tanh_pos. nra. }
  nra.
Qed.

(** The witness of C2: the biases of the gates are not zero, that of the
    candidate is. *)
Lemma lstm_zero_state_zero_input_witness :
  layer_norm unit_options = false
  /\ 0 < dropout_keep_prob unit_options
  /\ well_shaped unit_options 1 gate_biased
  /\ gate_bias unit_options gate_biased 3 = zeros (num_units unit_options)
  /\ lstm_output
       (CustomLSTMCell (1 / 1000) unit_options gate_biased half_noise
          (zeros 1)
          {| h_of := zeros (num_units unit_options);
             c_of := zeros (num_units unit_options) |})
     = zeros (num_units unit_options).
Proof.
  assert (well_shaped unit_options 1 gate_biased) as Hw.
  { repeat split; repeat constructor. }
  assert (0 < dropout_keep_prob unit_options) as Hk by (cbn; lra).
  split; [reflexivity|]. split; [exact Hk|]. split; [exact Hw|].
  split; [reflexivity|].
  exact (lstm_zero_state_zero_input (1 / 1000) unit_options gate_biased
           half_noise 1 eq_refl Hk Hw eq_refl).
Defined.

End CellExamples.

(** ** Graph construction *)

Section BuildFacts.

Import Model.
Local Open Scope string_scope.

Lemma bind_inr {A B : Type} (m : Build A) (k : A -> Build B) st b st' :
  bind m k st = inr (b, st') ->
  exists a st1, m st = inr (a, st1) /\ k a st1 = inr (b, st').
Proof.
  unfold bind. destruct (m st) as [e|[a st1]]; [discriminate|]. eauto.
Qed.

Lemma getitem_inr (config : gmap string nat) key st v st' :
  getitem config key st = inr (v, st') -> config !! key = Some v /\ st' = st.
Proof.
  unfold getitem. destruct (config !! key); cbn; [|discriminate].
  now intros [= -> ->].
Qed.

Lemma get_variable_inr name shape init tr st f st' :
  get_variable name shape init tr st = inr (f, st') ->
  f = (fun vals => vals name)
  /\ st' = (st ++ [declaration name shape init tr])%list
  /\ name ∉ map var_name st.
Proof.
  unfold get_variable, declared. case_bool_decide; [discriminate|].
  now intros [= <- <-].
Qed.

Lemma declare_all_inr ds st u st' :
  declare_all ds st = inr (u, st') -> st' = (st ++ ds)%list.
Proof.
  revert st. induction ds as [|d ds IH]; intros st H.
  - cbn in H. injection H as _ <-. now rewrite app_nil_r.
  - cbn [declare_all] in H. apply bind_inr in H as (f & st1 & H1 & H2).
    apply get_variable_inr in H1 as (_ & -> & _).
    apply IH in H2 as ->. rewrite <- app_assoc. now destruct d.
Qed.

Variable impl : CellImpl.
Variable gradients : (Values -> option R) -> list string -> Values -> list tensor.

Lemma declare_cells_inr scope i cs depth st u st' :
  declare_cells impl scope i cs depth st = inr (u, st') ->
  st' = (st ++ cells_declarations impl scope i cs depth)%list.
Proof.
  revert i depth st. induction cs as [|c cs IH]; intros i depth st H.
  - cbn in H. injection H as _ <-. now rewrite app_nil_r.
  - cbn [declare_cells] in H. apply bind_inr in H as (f & st1 & H1 & H2).
    apply declare_all_inr in H1 as ->. apply IH in H2 as ->.
    cbn [cells_declarations]. now rewrite app_assoc.
Qed.

Ltac step_raw H a st1 H1 :=
  apply bind_inr in H as (a & st1 & H1 & H); cbv beta in H.

Ltac step_get H v Hv :=
  let st1 := fresh "st" in
  step_raw H v st1 Hv; apply getitem_inr in Hv as [Hv ->].

Ltac step_var H Hfresh :=
  let a := fresh "a" in
  let st1 := fresh "st" in
  step_raw H a st1 Hfresh;
  apply get_variable_inr in Hfresh as (-> & -> & Hfresh).

Ltac step_cur H :=
  let a := fresh "a" in
  let st1 := fresh "st" in
  let H1 := fresh "H" in
  step_raw H a st1 H1; unfold current_variables in H1; injection H1 as <- <-.

(** What a successful [_build_model] returns. *)
Lemma build_model_inr self net st' :
  _build_model impl gradients self [] = inr (net, st') ->
  exists T V E n,
    _config self !! "num_steps" = Some T
    /\ _config self !! "vocab_size" = Some V
    /\ _config self !! "embedding_size" = Some E
    /\ _config self !! "n_hidden" = Some n
    /\ st' = graph_variables impl self T V E n
    /\ cells net = stacked self
    /\ _initial_state net = initial_state impl self embedding_var
    /\ logit net = reshaped embedding_var T (projected impl self T V)
    /\ _prediction net = prediction (logit net)
    /\ t_vars net = trainable_variables st'
    /\ _loss net = total_loss self (loss embedding_var T (logit net))
                              (t_vars net)
    /\ _train_op net = train_op gradients self (_loss net)
                                (map var_name (t_vars net)).
Proof.
  intros H. unfold _build_model in H.
  step_get H T HT. step_get H T' HT'. rewrite HT in HT'. injection HT' as <-.
  step_get H V HV. step_get H E HE. step_var H Hemb.
  step_get H T' HT'. rewrite HT in HT'. injection HT' as <-.
  step_raw H u st0 Hcells.
  step_get H n Hn. step_get H n' Hn'. rewrite Hn in Hn'. injection Hn' as <-.
  step_get H V' HV'. rewrite HV in HV'. injection HV' as <-.
  assert (st0 = [declaration "embedding" [V; E] DefaultInit true]
                ++ match T with
                   | O => []
                   | S _ => cells_declarations impl "stacked_lstm" 0
                                               (stacked self) E
                   end)%list as ->.
  { destruct T.
    - injection Hcells as _ <-. reflexivity.
    - now apply declare_cells_inr in Hcells. }
  clear Hcells.
  step_raw H fc st2 Hfc.
  assert (fc = projected impl self T V
          /\ st2 = graph_variables impl self T V E n) as [-> ->].
  { unfold projected, graph_variables, projection_variables.
    unfold _full_connected in Hfc.
    destruct (_batch_norm_decay self) as [decay|].
    - step_raw Hfc fc' st3 Hfc'. step_var Hfc' Hw. injection Hfc' as <- <-.
      step_var Hfc Hv1. step_var Hfc Hv2. step_var Hfc Hv3.
      injection Hfc as <- <-.
      split; [reflexivity|]. cbn [app]. rewrite <- !app_assoc. reflexivity.
    - step_var Hfc Hw. step_var Hfc Hb. injection Hfc as <- <-.
      split; [reflexivity|]. cbn [app]. rewrite <- !app_assoc. reflexivity. }
  step_get H T' HT'. rewrite HT in HT'. injection HT' as <-.
  step_get H V' HV'.
  step_get H T' HT'. rewrite HT in HT'. injection HT' as <-.
  step_cur H. step_cur H. step_raw H nv st3 Hnv.
  assert (st3 = graph_variables impl self T V E n) as ->.
  { destruct (trainable_variables _); [discriminate|]. now injection Hnv. }
  injection H as <- <-.
  exists T, V, E, n. repeat split; assumption.
Qed.

(** What a successful construction returns. *)
Lemma construct_inr config o m :
  construct impl gradients config o = inr m ->
  exists T V E n,
    config !! "num_steps" = Some T
    /\ config !! "vocab_size" = Some V
    /\ config !! "embedding_size" = Some E
    /\ config !! "n_hidden" = Some n
    /\ settings m = settings_of config o n
    /\ variables m = graph_variables impl (settings m) T V E n
    /\ cells (network m) = stacked (settings m)
    /\ _initial_state (network m)
       = initial_state impl (settings m) embedding_var
    /\ logit (network m)
       = reshaped embedding_var T (projected impl (settings m) T V)
    /\ _prediction (network m) = prediction (logit (network m))
    /\ t_vars (network m) = trainable_variables (variables m)
    /\ _loss (network m)
       = total_loss (settings m)
                    (loss embedding_var T (logit (network m)))
                    (t_vars (network m))
    /\ _train_op (network m)
       = train_op gradients (settings m) (_loss (network m))
                  (map var_name (t_vars (network m))).
Proof.
  unfold construct.
  destruct (__init__ impl gradients config o []) as [e|[m' st]] eqn:H;
    [discriminate|].
  intros [= ->]. unfold __init__ in H.
  step_raw H cp st0 Hcp.
  assert (exists n, config !! "n_hidden" = Some n
                    /\ cp.1 = selected_class o
                    /\ cp.2 = selected_args config o n /\ st0 = [])
    as (n & Hn & Hcls & Hargs & ->).
  { unfold selected_class, selected_args.
    destruct (decide (type_of_lstm o = Some "hypernets")).
    - step_get Hcp n0 Hn. step_get Hcp nh Hnh. step_get Hcp ne Hne.
      injection Hcp as <- <-. exists n0. rewrite Hnh, Hne. auto.
    - step_get Hcp n0 Hn. injection Hcp as <- <-. exists n0. auto. }
  step_raw H net st1 Hnet.
  apply build_model_inr in Hnet
    as (T & V & E & n' & HT & HV & HE & Hn' & -> & Hnet).
  cbn [_config] in *. rewrite Hn in Hn'. injection Hn' as <-.
  step_cur H. injection H as <- <-.
  exists T, V, E, n. cbn [settings network variables].
  rewrite Hcls, Hargs in *. repeat split; try assumption; apply Hnet.
Qed.

End BuildFacts.

(** ** The constructor *)

Section ConstructionFacts.

Import Model.
Local Open Scope string_scope.

Variable impl : CellImpl.
Variable gradients : (Values -> option R) -> list string -> Values -> list tensor.

Lemma bind_assoc {A B C : Type} (m : Build A) (f : A -> Build B)
    (g : B -> Build C) st :
  bind (bind m f) g st = bind m (fun a => bind (f a) g) st.
Proof. unfold bind. destruct (m st) as [e|[a st1]]; reflexivity. Qed.

Lemma bind_getitem_some {A : Type} (config : gmap string nat) key v
    (k : nat -> Build A) st :
  config !! key = Some v -> bind (getitem config key) k st = k v st.
Proof. intros H. unfold bind, getitem. now rewrite H. Qed.

Lemma bind_getitem_none {A : Type} (config : gmap string nat) key
    (k : nat -> Build A) st :
  config !! key = None -> bind (getitem config key) k st = inl (KeyError key).
Proof. intros H. unfold bind, getitem. now rewrite H. Qed.

Lemma bind_ret {A B : Type} (a : A) (k : A -> Build B) st :
  bind (ret a) k st = k a st.
Proof. reflexivity. Qed.

Ltac read_key config key :=
  rewrite ?bind_assoc;
  lazymatch goal with
  | E : config !! key = Some ?v |- _ =>
      rewrite (bind_getitem_some config key v) by exact E
  | _ =>
      let v := fresh "v" in
      let E := fresh "E" in
      destruct (config !! key) as [v|] eqn:E;
      [ rewrite (bind_getitem_some config key v) by exact E
      | exists key; split; [repeat constructor|]; split; [exact E|];
        rewrite (bind_getitem_none config key) by exact E;
        reflexivity ]
  end; cbv beta.

Ltac all_present Hin :=
  exfalso; cbn [app] in Hin;
  repeat (apply elem_of_cons in Hin as [->|Hin]; [congruence|]);
  now apply elem_of_nil in Hin.

(** C7. A configuration that lacks a key the constructor reads makes the
    construction fail with a [KeyError] on a missing required key: no
    model is returned and no default stands in for the missing value. *)
Theorem missing_key_fails (config : gmap string nat) (o : Options)
    (key : string) :
  key ∈ required_keys o ->
  config !! key = None ->
  exists k, k ∈ required_keys o /\ config !! k = None
            /\ construct impl gradients config o = inl (KeyError k).
Proof.
  intros Hin Hnone. unfold construct, __init__, required_keys in *.
  destruct (decide (type_of_lstm o = Some "hypernets")) as [Hh|Hh].
  - read_key config "n_hidden". read_key config "n_hidden_hyper".
    read_key config "n_embedding_hyper". rewrite bind_ret. cbv beta.
    unfold _build_model. cbn [_config].
    read_key config "num_steps". read_key config "num_steps".
    read_key config "vocab_size". read_key config "embedding_size".
    all_present Hin.
  - read_key config "n_hidden". rewrite bind_ret. cbv beta.
    unfold _build_model. cbn [_config].
    read_key config "num_steps". read_key config "num_steps".
    read_key config "vocab_size". read_key config "embedding_size".
    all_present Hin.
Qed.

Lemma stacked_lstm_names i cs depth d :
  d ∈ cells_declarations impl "stacked_lstm" i cs depth ->
  exists rest, var_name d = "s" +:+ rest.
Proof.
  revert i depth. induction cs as [|c cs IH]; intros i depth Hd.
  - now apply elem_of_nil in Hd.
  - cbn [cells_declarations] in Hd. apply elem_of_app in Hd as [Hd|Hd].
    + apply list_elem_of_fmap in Hd as (d0 & -> & _).
      unfold scoped, cell_scope. cbn. eauto.
    + eapply IH, Hd.
Qed.

Lemma stacked_lstm_not_fc i cs depth :
  "fully_connected/fc/bias"
  ∉ map var_name (cells_declarations impl "stacked_lstm" i cs depth).
Proof.
  intros H. apply list_elem_of_fmap in H as (d & Hname & Hd).
  apply stacked_lstm_names in Hd as (rest & Hrest).
  rewrite Hrest in Hname. discriminate.
Qed.

(** C6. The constructed network stacks exactly two cells, both of the
    class the option selects and with the same arguments, and whenever
    the input tokens are in the vocabulary its initial state holds, for
    each of the two layers and each component of the state of its cell,
    one row of zeros per sequence of the batch. *)
Theorem two_layers_zero_state (config : gmap string nat) (o : Options)
    (m : LSTMLanguageModel) (run : Run) (x : list mat) :
  construct impl gradients config o = inr m ->
  TF.embedding_lookup (as_mat (values run "embedding"))
                      (feed_inputs (feed run)) = Some x ->
  length (cells (network m)) = 2%nat
  /\ Forall (fun c => cell_class c = selected_class o
                      /\ cell_args c = _params (settings m))
            (cells (network m))
  /\ _initial_state (network m) run
     = Some (map (fun c =>
                    map (zeros2 (length (feed_inputs (feed run))))
                        (state_size impl (cell_class c) (cell_args c)))
                 (cells (network m))).
Proof.
  intros Hm Hx.
  apply construct_inr in Hm
    as (T & V & E & n & _ & _ & _ & _ & Hs & _ & Hcells & Hinit & _).
  rewrite Hcells, Hinit. unfold stacked. cbn [seq map length].
  split; [reflexivity|]. split.
  - rewrite Hs. repeat constructor.
  - unfold initial_state, batch_size, embedded, embedding_var.
    rewrite Hx. cbn. apply length_mapM in Hx. now rewrite Hx.
Qed.

(** C9. With a batch-norm decay the graph has no variable for a bias of
    the projection, and the logits are the batch normalisation of the
    bare product of the hidden outputs with the weight; without it the
    graph has a trainable bias of the vocabulary size initialised to
    zeros, which is added to the product. *)
Theorem projection_bias (config : gmap string nat) (o : Options)
    (m : LSTMLanguageModel) :
  construct impl gradients config o = inr m ->
  exists T V,
    config !! "num_steps" = Some T /\ config !! "vocab_size" = Some V
    /\ (let hidden := layer impl (settings m) embedding_var T in
        match batch_norm o with
       | Some decay =>
           ("fully_connected/fc/bias" ∉ map var_name (variables m))
           /\ logit (network m)
              = reshaped embedding_var T
                  (batch_normalized (settings m) decay
                     (matmul_node hidden fc_weight V)
                     (bn_var "beta") (bn_var "moving_mean")
                     (bn_var "moving_variance"))
       | None =>
           declaration "fully_connected/fc/bias" [V]
                       (Constant (replicate V 0)) true
           ∈ t_vars (network m)
           /\ logit (network m)
              = reshaped embedding_var T
                  (add_node (matmul_node hidden fc_weight V) fc_bias)
        end).
Proof.
  intros Hm.
  apply construct_inr in Hm
    as (T & V & E & n & HT & HV & _ & _ & Hs & Hvars & _ & _ & Hlogit & _
        & Htv & _).
  exists T, V. split; [exact HT|]. split; [exact HV|]. cbv zeta.
  rewrite Hlogit, Htv, Hvars. unfold projected, graph_variables,
    projection_variables.
  assert (_batch_norm_decay (settings m) = batch_norm o) as ->
    by now rewrite Hs.
  destruct (batch_norm o) as [decay|].
  - split; [|reflexivity].
    cbn [map var_name declaration]. rewrite map_app.
    intros H. apply elem_of_cons in H as [H|H]; [discriminate|].
    apply elem_of_app in H as [H|H].
    + destruct T; [now apply elem_of_nil in H|].
      now apply stacked_lstm_not_fc in H.
    + cbn in H. repeat (apply elem_of_cons in H as [H|H]; [discriminate|]).
      now apply elem_of_nil in H.
  - split; [|reflexivity].
    unfold trainable_variables. apply list_elem_of_filter. split; [reflexivity|].
    apply elem_of_cons. right. apply elem_of_app. right.
    repeat constructor.
Qed.

End ConstructionFacts.

(** ** The forward pass *)

Section ForwardFacts.

Import Model.
Local Open Scope string_scope.

Variable impl : CellImpl.
Variable gradients : (Values -> option R) -> list string -> Values -> list tensor.

Lemma multi_call_agree r1 r2 t i cs1 cs2 x state :
  Forall2 (calls_agree impl r1 r2) cs1 cs2 ->
  multi_call impl "stacked_lstm" r1 t i cs1 x state
  = multi_call impl "stacked_lstm" r2 t i cs2 x state.
Proof.
  intros H. revert i x.
  induction H as [|c1 c2 cs1 cs2 Hc _ IH]; intros i x; [reflexivity|].
  cbn [multi_call]. rewrite (Hc i t x (nth i state [])).
  destruct (call impl _ _ _ _ _ x _) as [out new_state].
  now rewrite IH.
Qed.

Lemma unroll_agree r1 r2 cs1 cs2 x steps state outs :
  Forall2 (calls_agree impl r1 r2) cs1 cs2 ->
  unroll impl "stacked_lstm" r1 cs1 x steps state outs
  = unroll impl "stacked_lstm" r2 cs2 x steps state outs.
Proof.
  intros H. revert state outs.
  induction steps as [|t steps IH]; intros state outs; [reflexivity|].
  cbn [unroll]. rewrite (multi_call_agree r1 r2 t 0 cs1 cs2) by exact H.
  destruct (multi_call _ _ _ _ _ _ _ _) as [out state'].
  apply IH.
Qed.

(** Two runs of two models that read the same inputs and values, whose
    dropouts act alike and whose cells return the same, compute the same
    hidden outputs. *)
Lemma layer_agree self1 self2 T r1 r2 :
  feed_inputs (feed r1) = feed_inputs (feed r2) ->
  values r1 = values r2 ->
  _LSTMCell self1 = _LSTMCell self2 ->
  _params self1 = _params self2 ->
  (forall x, TF.dropout3 x (__keep_prob self1 r1) (rnd r1 InputDropout)
             = TF.dropout3 x (__keep_prob self2 r2) (rnd r2 InputDropout)) ->
  (forall x, TF.dropout_mat x (__keep_prob self1 r1) (rnd r1 OutputDropout)
             = TF.dropout_mat x (__keep_prob self2 r2)
                 (rnd r2 OutputDropout)) ->
  Forall2 (calls_agree impl r1 r2) (stacked self1) (stacked self2) ->
  layer impl self1 embedding_var T r1 = layer impl self2 embedding_var T r2.
Proof.
  intros Hin Hval Hcls Hargs Hdrop_in Hdrop_out Hcells.
  unfold layer, outputs, unrolled, initial_state, inputs, batch_size,
    embedded, embedding_var.
  rewrite Hin, Hval.
  destruct (TF.embedding_lookup _ _) as [x|]; [|reflexivity].
  cbn [mbind option_bind _batch_size].
  rewrite Hdrop_in.
  rewrite (unroll_agree r1 r2 (stacked self1) (stacked self2)) by exact Hcells.
  assert (multi_zero_state impl (stacked self1) (length x)
          = multi_zero_state impl (stacked self2) (length x)) as ->.
  { unfold multi_zero_state, zero_state, stacked. cbn [seq map cell_class
      cell_args]. now rewrite Hcls, Hargs. }
  now rewrite Hdrop_out.
Qed.

Lemma prediction_agree self1 self2 T V r1 r2 :
  layer impl self1 embedding_var T r1 = layer impl self2 embedding_var T r2 ->
  feed_inputs (feed r1) = feed_inputs (feed r2) ->
  values r1 = values r2 ->
  _batch_norm_decay self1 = _batch_norm_decay self2 ->
  (_batch_norm_decay self1 = None \/ is_train_of r1 = is_train_of r2) ->
  reshaped embedding_var T (projected impl self1 T V) r1
  = reshaped embedding_var T (projected impl self2 T V) r2.
Proof.
  intros Hlayer Hin Hval Hbn Htrain.
  unfold reshaped, projected, batch_size, embedded.
  rewrite <- Hbn, Hin, Hval.
  destruct (_batch_norm_decay self1) as [decay|].
  - destruct Htrain as [|Htrain]; [discriminate|].
    unfold batch_normalized, matmul_node. now rewrite Hlayer, Htrain, Hval.
  - unfold add_node, matmul_node. now rewrite Hlayer, Hval.
Qed.

Lemma stacked_agree self1 self2 r1 r2 :
  (forall c1 c2, c1 ∈ stacked self1 -> c2 ∈ stacked self2 ->
                 calls_agree impl r1 r2 c1 c2) ->
  Forall2 (calls_agree impl r1 r2) (stacked self1) (stacked self2).
Proof.
  intros H. unfold stacked in *. cbn [seq map] in *.
  repeat constructor; apply H; repeat constructor.
Qed.

(** With a keep-probability of one in both runs, neither the dropouts of
    the model nor (for a deterministic implementation) those of the cells
    tell the runs apart. *)
Lemma keep_one_agree self1 self2 T r1 r2 :
  keep_one_deterministic impl ->
  uniform_run r1 -> uniform_run r2 ->
  __keep_prob self1 r1 = 1 -> __keep_prob self2 r2 = 1 ->
  feed_inputs (feed r1) = feed_inputs (feed r2) ->
  values r1 = values r2 ->
  _LSTMCell self1 = _LSTMCell self2 ->
  _params self1 = _params self2 ->
  layer impl self1 embedding_var T r1 = layer impl self2 embedding_var T r2.
Proof.
  intros Hdet Hu1 Hu2 Hk1 Hk2 Hin Hval Hcls Hargs.
  apply layer_agree; try assumption.
  - intros x. rewrite Hk1, Hk2. now rewrite !dropout3_one by auto.
  - intros x. rewrite Hk1, Hk2. now rewrite !dropout_mat_one by auto.
  - apply stacked_agree. intros c1 c2 Hc1 Hc2.
    unfold stacked in Hc1, Hc2.
    apply list_elem_of_fmap in Hc1 as (? & -> & _).
    apply list_elem_of_fmap in Hc2 as (? & -> & _).
    intros i t y st. cbn [cell_class cell_args cell_keep_prob].
    unfold __keep_prob_r. unfold __keep_prob in Hk1, Hk2.
    rewrite Hk1, Hk2, Hcls, Hargs, Hval.
    apply Hdet; intros k; [apply Hu1 | apply Hu2].
Qed.

(** C10. Outside training mode the prediction does not depend on the
    draws of the dropouts: two runs on the same tokens and the same
    values of the variables return the same prediction, for cells that
    are deterministic at a keep-probability of one. *)
Theorem inference_is_deterministic (config : gmap string nat) (o : Options)
    (m : LSTMLanguageModel) (r1 r2 : Run) :
  construct impl gradients config o = inr m ->
  keep_one_deterministic impl ->
  is_train_of r1 = false -> is_train_of r2 = false ->
  feed_inputs (feed r1) = feed_inputs (feed r2) ->
  values r1 = values r2 ->
  uniform_run r1 -> uniform_run r2 ->
  __keep_prob (settings m) r1 = 1
  /\ __keep_prob_r (settings m) r1 = 1
  /\ _prediction (network m) r1 = _prediction (network m) r2.
Proof.
  intros Hm Hdet Ht1 Ht2 Hin Hval Hu1 Hu2.
  apply construct_inr in Hm
    as (T & V & E & n & _ & _ & _ & _ & _ & _ & _ & _ & Hlogit & Hpred & _).
  assert (forall r, is_train_of r = false -> __keep_prob (settings m) r = 1)
    as Hkeep.
  { intros r Hr. unfold __keep_prob. now rewrite Hr. }
  split; [now apply Hkeep|]. split; [now apply Hkeep|].
  rewrite Hpred, Hlogit. unfold prediction.
  rewrite (prediction_agree (settings m) (settings m) T V r1 r2);
    try reflexivity; try assumption.
  - apply keep_one_agree; auto.
  - right. now rewrite Ht1, Ht2.
Qed.


(** C5 (amended). Without batch normalisation, a model constructed with
    a keep-probability of one and run in training mode returns the
    prediction of the model constructed from the same configuration with
    any keep-probability and run outside training mode, on the same
    tokens and values: in both runs the effective keep-probability is
    one. *)
Theorem keep_one_is_inference (config : gmap string nat) (o : Options)
    (p : R) (m1 m2 : LSTMLanguageModel) (r1 r2 : Run) :
  batch_norm o = None ->
  construct impl gradients config (with_keep_prob o 1) = inr m1 ->
  construct impl gradients config (with_keep_prob o p) = inr m2 ->
  keep_one_deterministic impl ->
  is_train_of r1 = true -> is_train_of r2 = false ->
  feed_inputs (feed r1) = feed_inputs (feed r2) ->
  values r1 = values r2 ->
  uniform_run r1 -> uniform_run r2 ->
  __keep_prob (settings m1) r1 = 1
  /\ __keep_prob (settings m2) r2 = 1
  /\ _prediction (network m1) r1 = _prediction (network m2) r2.
Proof.
  intros Hbn Hm1 Hm2 Hdet Ht1 Ht2 Hin Hval Hu1 Hu2.
  apply construct_inr in Hm1
    as (T & V & E & n & HT & HV & _ & Hn & Hs1 & _ & _ & _ & Hlogit1
        & Hpred1 & _).
  apply construct_inr in Hm2
    as (T' & V' & E' & n' & HT' & HV' & _ & Hn' & Hs2 & _ & _ & _ & Hlogit2
        & Hpred2 & _).
  rewrite HT in HT'. injection HT' as <-.
  rewrite HV in HV'. injection HV' as <-.
  rewrite Hn in Hn'. injection Hn' as <-.
  assert (__keep_prob (settings m1) r1 = 1) as Hk1.
  { unfold __keep_prob. rewrite Ht1, Hs1. reflexivity. }
  assert (__keep_prob (settings m2) r2 = 1) as Hk2.
  { unfold __keep_prob. now rewrite Ht2. }
  split; [exact Hk1|]. split; [exact Hk2|].
  rewrite Hpred1, Hpred2, Hlogit1, Hlogit2. unfold prediction.
  rewrite (prediction_agree (settings m1) (settings m2) T V r1 r2);
    try reflexivity; try assumption.
  - apply keep_one_agree; auto; rewrite Hs1, Hs2; reflexivity.
  - rewrite Hs1, Hs2. reflexivity.
  - left. rewrite Hs1. exact Hbn.
Qed.

(** The loss reads neither the placeholder [lr_decay] nor anything that
    depends on it. *)
Lemma loss_ignores_lr_decay self T V t_vars run d :
  total_loss self
    (loss embedding_var T (reshaped embedding_var T (projected impl self T V)))
    t_vars (with_lr_decay run d)
  = total_loss self
      (loss embedding_var T
            (reshaped embedding_var T (projected impl self T V)))
      t_vars run.
Proof.
  unfold total_loss, loss.
  rewrite (prediction_agree self self T V (with_lr_decay run d) run);
    try reflexivity.
  - apply layer_agree; try reflexivity.
    apply stacked_agree. intros c1 c2 Hc1 Hc2. unfold stacked in Hc1, Hc2.
    apply list_elem_of_fmap in Hc1 as (? & -> & _).
    apply list_elem_of_fmap in Hc2 as (? & -> & _).
    intros i t y st. reflexivity.
  - right. reflexivity.
Qed.

(** C8. The training step is the same whatever is fed to the
    placeholder [lr_decay]: the step is that of gradient descent with the
    learning rate given to the constructor. *)
Theorem lr_decay_is_ignored (config : gmap string nat) (o : Options)
    (m : LSTMLanguageModel) (run : Run) (d1 d2 : option R) :
  construct impl gradients config o = inr m ->
  _train_op (network m) (with_lr_decay run d1)
  = _train_op (network m) (with_lr_decay run d2)
  /\ exists grads,
       _train_op (network m) (with_lr_decay run d1)
       = (_ ← _loss (network m) run;
          Some (TF.apply_gradients (learning_rate o)
                  (zip grads (map var_name (t_vars (network m))))
                  (values run))).
Proof.
  intros Hm.
  apply construct_inr in Hm
    as (T & V & E & n & _ & _ & _ & _ & Hs & _ & _ & _ & Hlogit & _ & _
        & Hloss & Htrain).
  rewrite Hlogit in Hloss.
  assert (forall r d, _loss (network m) (with_lr_decay r d)
                      = _loss (network m) r) as Hl.
  { intros r d. rewrite Hloss. apply loss_ignores_lr_decay. }
  assert (forall d, _train_op (network m) (with_lr_decay run d)
                    = _train_op (network m) run) as Hd.
  { intros d. rewrite Htrain. unfold train_op, loss_gradients.
    assert ((fun vals => _loss (network m)
                           (with_values (with_lr_decay run d) vals))
            = (fun vals => _loss (network m) (with_values run vals))) as Hf.
    { apply functional_extensionality. intros vals.
      apply (Hl (with_values run vals) d). }
    destruct (_clip (settings m)) as [clip|]; rewrite Hf, Hl; reflexivity. }
  split; [now rewrite !Hd|].
  rewrite Hd, Htrain. unfold train_op.
  assert (_lr (settings m) = learning_rate o) as -> by now rewrite Hs.
  destruct (_clip (settings m)) as [clip|]; eexists; reflexivity.
Qed.

End ForwardFacts.

(** ** The loss *)

Section LossFacts.

Import Model.
Local Open Scope string_scope.

Lemma vmul_ones row T :
  (length row <= T)%nat -> vmul row (replicate T 1) = row.
Proof. by_entries row T IH. Qed.

Lemma weights_of_one xs B T :
  length xs = B -> Forall (fun row => length row = T) xs ->
  zip_with vmul xs (TF.ones B T) = xs.
Proof.
  intros <- Hrows. unfold TF.ones.
  induction Hrows as [|row xs Hrow _ IH]; [reflexivity|].
  cbn [length replicate zip_with]. rewrite IH, vmul_ones by lia.
  reflexivity.
Qed.

Lemma vec_as_map (row : vec) :
  row = map (fun t => nth t row 0) (seq 0 (length row)).
Proof.
  induction row as [|a row IH]; [reflexivity|].
  cbn [length seq map nth]. f_equal.
  rewrite <- seq_shift, map_map. exact IH.
Qed.

Lemma zip_with_maps {A : Type} (f : R -> R -> R) (g h : A -> R) l :
  zip_with f (map g l) (map h l) = map (fun t => f (g t) (h t)) l.
Proof. induction l as [|a l IH]; cbn; [reflexivity|]. now rewrite IH. Qed.

Lemma zeros_as_map T : zeros T = map (fun _ => 0) (seq 0 T).
Proof.
  unfold zeros. generalize 0%nat. induction T as [|T IH]; intros s;
    [reflexivity|].
  cbn [replicate seq map]. f_equal. apply IH.
Qed.

(** Summing the rows of a [batch, steps] tensor gives, at each step, the
    sum of its column. *)
Lemma column_sums xs T :
  Forall (fun row => length row = T) xs ->
  TF.reduce_sum_axis0 T xs = map (fun t => vsum (TF.column t xs)) (seq 0 T).
Proof.
  intros Hrows. unfold TF.reduce_sum_axis0.
  induction Hrows as [|row xs Hrow _ IH]; [apply zeros_as_map|].
  cbn [foldr]. rewrite IH. unfold vadd.
  rewrite (vec_as_map row) at 1. rewrite Hrow, zip_with_maps. reflexivity.
Qed.

Lemma weight_sums B T :
  TF.reduce_sum_axis0 T (TF.ones B T) = replicate T (INR B).
Proof.
  unfold TF.reduce_sum_axis0, TF.ones, vadd.
  induction B as [|B IH]; [reflexivity|].
  cbn [replicate foldr]. rewrite IH, zip_with_replicate. f_equal.
  rewrite S_INR. ring.
Qed.

Lemma vdiv_constant (f : nat -> R) l c :
  TF.vdiv (map f l) (replicate (length l) c) = map (fun t => f t / c) l.
Proof.
  unfold TF.vdiv. induction l as [|a l IH]; [reflexivity|].
  cbn [length replicate map zip_with]. now rewrite IH.
Qed.

(** The sequence loss the model asks for: at each timestep the sum of the
    cross-entropies of the batch divided by its size. *)
Lemma sequence_loss_batch_mean T lg targets xs B :
  TF.cross_entropies lg targets = Some xs ->
  length xs = B -> Forall (fun row => length row = T) xs ->
  TF.sequence_loss T lg targets (TF.ones B T) false true
  = Some (TF.Loss1 (map (fun t => vsum (TF.column t xs) / INR B) (seq 0 T))).
Proof.
  intros Hxs HB Hrows. unfold TF.sequence_loss. rewrite Hxs.
  cbn [mbind option_bind]. do 2 f_equal.
  rewrite weights_of_one, column_sums, weight_sums by assumption.
  pose proof (vdiv_constant (fun t => vsum (TF.column t xs)) (seq 0 T)
                (INR B)) as H.
  now rewrite length_seq in H.
Qed.

Variable impl : CellImpl.
Variable gradients : (Values -> option R) -> list string -> Values -> list tensor.

(** C3. The loss of a run is the sum over the timesteps of the
    cross-entropy against the targets averaged over the batch, plus, in
    training mode only, the weight-decay coefficient times the sum of the
    L2 losses (half the sum of the squares) of the trainable
    variables. *)
Theorem loss_is_cross_entropy_plus_decay (config : gmap string nat)
    (o : Options) (m : LSTMLanguageModel) (T : nat) (run : Run)
    (lg : list mat) (xs : mat) :
  construct impl gradients config o = inr m ->
  config !! "num_steps" = Some T ->
  logit (network m) run = Some lg ->
  TF.cross_entropies lg (feed_targets (feed run)) = Some xs ->
  length xs = length (feed_inputs (feed run)) ->
  Forall (fun row => length row = T) xs ->
  let B := length (feed_inputs (feed run)) in
  let cross_entropy :=
    vsum (map (fun t => vsum (TF.column t xs) / INR B) (seq 0 T)) in
  let l2 :=
    vsum (map (fun v => TF.l2_loss (values run (var_name v)))
              (trainable_variables (variables m))) in
  _loss (network m) run
  = Some (if is_train_of run
          then cross_entropy + weight_decay o * l2
          else cross_entropy).
Proof.
  intros Hm HT Hlg Hxs HB Hrows B cross_entropy l2.
  apply construct_inr in Hm
    as (T' & V & E & n & HT' & _ & _ & _ & Hs & _ & _ & _ & Hlogit & _ & Htv
        & Hloss & _).
  rewrite HT in HT'. injection HT' as <-.
  rewrite Hloss. unfold total_loss, loss. rewrite Hlg.
  cbn [mbind option_bind].
  assert (batch_size embedding_var run = Some B) as ->.
  { rewrite Hlogit in Hlg. unfold reshaped in Hlg.
    destruct (projected _ _ _ _ run); [|discriminate].
    cbn [mbind option_bind] in Hlg. unfold batch_size, embedded in *.
    destruct (TF.embedding_lookup _ _) as [x|] eqn:Hx; [|discriminate].
    cbn. apply length_mapM in Hx. subst B. now rewrite Hx. }
  cbn [mbind option_bind].
  rewrite (sequence_loss_batch_mean T lg _ xs B) by assumption.
  cbn [mbind option_bind TF.reduce_sum]. f_equal.
  unfold __weight_decay, l2_loss, TF.add_n, TF.where_.
  rewrite Htv, Hs. cbn [settings_of _weight_decay].
  destruct (is_train_of run); [reflexivity|].
  fold cross_entropy. ring.
Qed.


Lemma vsum_cons a v : vsum (a :: v) = a + vsum v.
Proof. reflexivity. Qed.

Lemma squares_nonneg v : 0 <= vsum (map (fun x => x * x) v).
Proof.
  induction v as [|a v IH]; cbn [map]; [cbn; lra|].
  rewrite vsum_cons. nra.
Qed.

Lemma squares_scaled k v :
  vsum (map (fun x => x * x) (map (fun x => x * k) v))
  = k * k * vsum (map (fun x => x * x) v).
Proof.
  induction v as [|a v IH]; cbn [map]; [cbn; ring|].
  rewrite !vsum_cons, IH. ring.
Qed.

Lemma as_vec_tmap f t : as_vec (tmap f t) = map f (as_vec t).
Proof.
  destruct t as [v|m]; cbn [tmap as_vec]; [reflexivity|].
  induction m as [|row m IH]; cbn [map concat]; [reflexivity|].
  now rewrite map_app, IH.
Qed.

Lemma total_squares_nonneg ts : 0 <= TF.squares ts.
Proof.
  unfold TF.squares. induction ts as [|t ts IH]; cbn [map]; [cbn; lra|].
  rewrite vsum_cons. pose proof (squares_nonneg (as_vec t)). lra.
Qed.

Lemma total_squares_scaled k ts :
  TF.squares (map (tmap (fun x => x * k)) ts) = k * k * TF.squares ts.
Proof.
  unfold TF.squares. induction ts as [|t ts IH]; cbn [map]; [cbn; ring|].
  rewrite !vsum_cons, IH, as_vec_tmap, squares_scaled. ring.
Qed.



End LossFacts.

(** ** The cells on a batch *)

Section BatchCellFacts.

Import Model.

Variable epsilon : R.
Variable recurrent_dropout : bool.

Lemma row_noise_uniform (u : nat -> TF.noise) k r :
  (forall k, TF.uniform (u k)) -> TF.uniform (BatchCells.row_noise u k r).
Proof. intros Hu ix. apply Hu. Qed.

(** The cells of [Cells] are deterministic at a keep-probability of
    one. *)
Lemma cells_py_keep_one :
  keep_one_deterministic (BatchCells.cells_py epsilon recurrent_dropout).
Proof.
  intros cls a u1 u2 vals x st Hu1 Hu2. destruct cls; cbn [call BatchCells.cells_py].
  - unfold BatchCells.lstm_call.
    erewrite imap_ext; [reflexivity|].
    intros r [xr [hr cr]] _. cbn beta iota.
    apply lstm_keep_one; [reflexivity|..]; now apply row_noise_uniform.
  - unfold BatchCells.hyper_call.
    erewrite imap_ext; [reflexivity|].
    intros r [xr [[hr cr] [hh ch]]] _. cbn beta iota.
    apply hyper_keep_one; [reflexivity|..]; now apply row_noise_uniform.
Qed.

End BatchCellFacts.

(** ** The properties on the sample data *)

Section ModelExamples.

Import Model Examples.
Local Open Scope string_scope.

Lemma uniform_one_token is_train :
  uniform_run (one_token is_train quiet)
  /\ uniform_run (one_token is_train noisy).
Proof.
  split; intros op ix; cbn; unfold quiet, noisy; lra.
Qed.

Lemma cells_py_deterministic : keep_one_deterministic cells_py.
Proof. apply cells_py_keep_one. Qed.

(** The witness of C3: the regularised model in training mode. *)
Lemma loss_is_cross_entropy_plus_decay_witness :
  exists m lg xs,
    let run := one_token (Some true) quiet in
    construct cells_py steep tiny_config regularized = inr m
    /\ tiny_config !! "num_steps" = Some 1%nat
    /\ logit (network m) run = Some lg
    /\ TF.cross_entropies lg (feed_targets (feed run)) = Some xs
    /\ length xs = length (feed_inputs (feed run))
    /\ Forall (fun row => length row = 1%nat) xs
    /\ _loss (network m) run
       = Some (vsum (map (fun t => vsum (TF.column t xs) / INR 1) (seq 0 1))
               + weight_decay regularized
                 * vsum (map (fun v => TF.l2_loss (drifted (var_name v)))
                             (trainable_variables (variables m)))).
Proof.
  do 3 eexists. cbv zeta.
  split; [reflexivity|]. split; [reflexivity|]. split; [reflexivity|].
  split; [reflexivity|]. split; [reflexivity|].
  split; [repeat constructor|].
  refine (loss_is_cross_entropy_plus_decay cells_py steep tiny_config
            regularized _ 1 (one_token (Some true) quiet) _ _
            eq_refl eq_refl eq_refl eq_refl eq_refl _).
  repeat constructor.
Defined.


(** The witness of C5 (amended): keep-probability one in training
    against one half outside training. *)
Lemma keep_one_is_inference_witness :
  exists m1 m2,
    let r1 := one_token (Some true) quiet in
    let r2 := one_token None noisy in
    batch_norm regularized = None
    /\ construct cells_py steep tiny_config (with_keep_prob regularized 1)
       = inr m1
    /\ construct cells_py steep tiny_config
                 (with_keep_prob regularized (1 / 2)) = inr m2
    /\ keep_one_deterministic cells_py
    /\ is_train_of r1 = true /\ is_train_of r2 = false
    /\ feed_inputs (feed r1) = feed_inputs (feed r2)
    /\ values r1 = values r2
    /\ uniform_run r1 /\ uniform_run r2
    /\ __keep_prob (settings m1) r1 = 1
    /\ __keep_prob (settings m2) r2 = 1
    /\ _prediction (network m1) r1 = _prediction (network m2) r2.
Proof.
  do 2 eexists. cbv zeta.
  split; [reflexivity|]. split; [reflexivity|]. split; [reflexivity|].
  split; [exact cells_py_deterministic|].
  split; [reflexivity|]. split; [reflexivity|]. split; [reflexivity|].
  split; [reflexivity|].
  split; [apply uniform_one_token|]. split; [apply uniform_one_token|].
  exact (keep_one_is_inference cells_py steep tiny_config regularized (1 / 2)
           _ _ (one_token (Some true) quiet) (one_token None noisy)
           eq_refl eq_refl eq_refl cells_py_deterministic eq_refl eq_refl
           eq_refl eq_refl
           (proj1 (uniform_one_token (Some true)))
           (proj2 (uniform_one_token None))).
Defined.

(** The witness of C6: the hypernetwork variant. *)
Lemma two_layers_zero_state_witness :
  exists m x,
    let run := one_token None quiet in
    construct cells_py steep tiny_config hypernets = inr m
    /\ TF.embedding_lookup (as_mat (values run "embedding"))
                           (feed_inputs (feed run)) = Some x
    /\ length (cells (network m)) = 2%nat
    /\ Forall (fun c => cell_class c = HyperLSTMCell
                        /\ cell_args c = _params (settings m))
              (cells (network m))
    /\ _initial_state (network m) run
       = Some (map (fun c =>
                      map (zeros2 1)
                          (state_size cells_py (cell_class c) (cell_args c)))
                   (cells (network m))).
Proof.
  do 2 eexists. cbv zeta.
  split; [reflexivity|]. split; [reflexivity|].
  exact (two_layers_zero_state cells_py steep tiny_config hypernets _
           (one_token None quiet) _ eq_refl eq_refl).
Defined.

(** The witness of C7: the configuration without its vocabulary size. *)
Lemma missing_key_fails_witness :
  "vocab_size" ∈ required_keys default_options
  /\ delete "vocab_size" tiny_config !! "vocab_size" = None
  /\ exists k,
       k ∈ required_keys default_options
       /\ delete "vocab_size" tiny_config !! k = None
       /\ construct cells_py steep (delete "vocab_size" tiny_config)
                    default_options = inl (KeyError k).
Proof.
  assert ("vocab_size" ∈ required_keys default_options) as Hin
    by repeat constructor.
  split; [exact Hin|]. split; [reflexivity|].
  exact (missing_key_fails cells_py steep (delete "vocab_size" tiny_config)
           default_options "vocab_size" Hin eq_refl).
Defined.

(** The witness of C8: no feed of [lr_decay] against a feed of two. *)
Lemma lr_decay_is_ignored_witness :
  exists m,
    let run := one_token (Some true) quiet in
    construct cells_py steep tiny_config regularized = inr m
    /\ _train_op (network m) (with_lr_decay run None)
       = _train_op (network m) (with_lr_decay run (Some 2))
    /\ exists grads,
         _train_op (network m) (with_lr_decay run None)
         = (_ ← _loss (network m) run;
            Some (TF.apply_gradients (learning_rate regularized)
                    (zip grads (map var_name (t_vars (network m))))
                    (values run))).
Proof.
  eexists. cbv zeta. split; [reflexivity|].
  exact (lr_decay_is_ignored cells_py steep tiny_config regularized _
           (one_token (Some true) quiet) None (Some 2) eq_refl).
Defined.

(** The witness of C9: a model with batch normalisation. *)
Lemma projection_bias_witness :
  exists m,
    construct cells_py steep tiny_config (batch_normalized_options 1) = inr m
    /\ exists T V,
         tiny_config !! "num_steps" = Some T
         /\ tiny_config !! "vocab_size" = Some V
         /\ ("fully_connected/fc/bias" ∉ map var_name (variables m))
         /\ logit (network m)
            = reshaped embedding_var T
                (batch_normalized (settings m) (95 / 100)
                   (matmul_node (layer cells_py (settings m) embedding_var T)
                                fc_weight V)
                   (bn_var "beta") (bn_var "moving_mean")
                   (bn_var "moving_variance")).
Proof.
  eexists. split; [reflexivity|].
  exact (projection_bias cells_py steep tiny_config
           (batch_normalized_options 1) _ eq_refl).
Defined.

(** The witness of C10: two runs outside training with different
    draws. *)
Lemma inference_is_deterministic_witness :
  exists m,
    let r1 := one_token None quiet in
    let r2 := one_token (Some false) noisy in
    construct cells_py steep tiny_config (batch_normalized_options (1 / 2))
    = inr m
    /\ keep_one_deterministic cells_py
    /\ is_train_of r1 = false /\ is_train_of r2 = false
    /\ feed_inputs (feed r1) = feed_inputs (feed r2)
    /\ values r1 = values r2
    /\ uniform_run r1 /\ uniform_run r2
    /\ __keep_prob (settings m) r1 = 1
    /\ __keep_prob_r (settings m) r1 = 1
    /\ _prediction (network m) r1 = _prediction (network m) r2.
Proof.
  eexists. cbv zeta.
  split; [reflexivity|]. split; [exact cells_py_deterministic|].
  split; [reflexivity|]. split; [reflexivity|]. split; [reflexivity|].
  split; [reflexivity|].
  split; [apply uniform_one_token|]. split; [apply uniform_one_token|].
  exact (inference_is_deterministic cells_py steep tiny_config
           (batch_normalized_options (1 / 2)) _
           (one_token None quiet) (one_token (Some false) noisy)
           eq_refl cells_py_deterministic eq_refl eq_refl eq_refl eq_refl
           (proj1 (uniform_one_token None))
           (proj2 (uniform_one_token (Some false)))).
Defined.

End ModelExamples.

(** ** Batch normalisation tells training from inference *)

Section BatchNormExample.

Import Model Examples.
Local Open Scope string_scope.

Lemma vec_mat_zero_row (row : vec) : vec_mat row [[0; 0]] 2 = [0; 0].
Proof.
  destruct row as [|a row]; [reflexivity|].
  destruct row; cbn; f_equal; try ring; f_equal; ring.
Qed.

(** The logits of the sample model with batch normalisation, on the
    drifted values: the statistics of the batch in training mode, the
    accumulated ones otherwise. *)
Lemma batch_normalized_logits (p : R) (tr : bool) u m :
  construct cells_py steep tiny_config (batch_normalized_options p) = inr m ->
  logit (network m) (one_token (Some tr) u)
  = Some [[ if tr then [0; 0] else [-1; 0] ]].
Proof.
  intros Hm.
  apply construct_inr in Hm
    as (T & V & E & n & HT & HV & _ & _ & Hs & _ & _ & _ & Hlogit & _).
  change (Some 1%nat = Some T) in HT. injection HT as <-.
  change (Some 2%nat = Some V) in HV. injection HV as <-.
  rewrite Hlogit, Hs. unfold reshaped, projected.
  cbn [settings_of _batch_norm_decay batch_normalized_options batch_norm].
  unfold batch_normalized, matmul_node.
  set (run := one_token (Some tr) u).
  assert (exists row,
            layer cells_py
                  (settings_of tiny_config (batch_normalized_options p) n)
                  embedding_var 1 run = Some [row]) as [row ->].
  { eexists. reflexivity. }
  cbn [mbind option_bind].
  change (as_mat (fc_weight (values run))) with [[0; 0]].
  unfold TF.matmul. cbn [map]. rewrite vec_mat_zero_row.
  assert (batch_size embedding_var run = Some 1%nat) as -> by reflexivity.
  cbn [mbind option_bind].
  change (is_train_of run) with tr.
  change (as_vec (bn_var "beta" (values run))) with [0; 0].
  change (as_vec (bn_var "moving_mean" (values run))) with [1; 0].
  change (as_vec (bn_var "moving_variance" (values run)))
    with [999 / 1000; 999 / 1000].
  destruct tr; cbn.
  - unfold TF.mean. cbn. repeat f_equal; unfold Rdiv; ring.
  - replace (999 / 1000 + 1 / 1000) with 1 by lra. rewrite sqrt_1.
    repeat f_equal; lra.
Qed.

(** The counterexample to C5 as stated: with batch normalisation, the
    model of keep-probability one run in training mode and the model of
    keep-probability one half run outside training mode return different
    predictions on the same token and the same values. *)
Lemma training_batch_norm_differs :
  exists m1 m2,
    let r1 := one_token (Some true) quiet in
    let r2 := one_token (Some false) quiet in
    construct cells_py steep tiny_config (batch_normalized_options 1)
    = inr m1
    /\ construct cells_py steep tiny_config
                 (batch_normalized_options (1 / 2)) = inr m2
    /\ is_train_of r1 = true /\ is_train_of r2 = false
    /\ feed_inputs (feed r1) = feed_inputs (feed r2)
    /\ values r1 = values r2
    /\ uniform_run r1 /\ uniform_run r2
    /\ __keep_prob (settings m1) r1 = 1
    /\ __keep_prob (settings m2) r2 = 1
    /\ _prediction (network m1) r1 <> _prediction (network m2) r2.
Proof.
  destruct (construct cells_py steep tiny_config (batch_normalized_options 1))
    as [e|m1] eqn:H1; [discriminate H1|].
  destruct (construct cells_py steep tiny_config
                      (batch_normalized_options (1 / 2)))
    as [e|m2] eqn:H2; [discriminate H2|].
  exists m1, m2. cbv zeta.
  split; [reflexivity|]. split; [reflexivity|].
  split; [reflexivity|]. split; [reflexivity|]. split; [reflexivity|].
  split; [reflexivity|].
  split; [apply uniform_one_token|]. split; [apply uniform_one_token|].
  pose proof (batch_normalized_logits 1 true quiet m1 H1) as L1.
  pose proof (batch_normalized_logits (1 / 2) false quiet m2 H2) as L2.
  pose proof (construct_inr _ _ _ _ _ H1)
    as (T1 & V1 & E1 & n1 & _ & _ & _ & _ & Hs1 & _ & _ & _ & _ & P1 & _).
  pose proof (construct_inr _ _ _ _ _ H2)
    as (T2 & V2 & E2 & n2 & _ & _ & _ & _ & Hs2 & _ & _ & _ & _ & P2 & _).
  split; [now rewrite Hs1|]. split; [now rewrite Hs2|].
  rewrite P1, P2. unfold prediction. rewrite L1, L2.
  cbn. rewrite exp_0. intros [= H _].
  assert (exp (-1) < 1) as He.
  { rewrite <- exp_0. apply exp_increasing. lra. }
  pose proof (exp_pos (-1)) as Hp.
  replace (1 / (1 + (1 + 0))) with (1 / 2) in H by lra.
  assert (exp (-1) / (exp (-1) + (1 + 0)) * (exp (-1) + (1 + 0)) = exp (-1))
    as Hd by (field; lra).
  rewrite <- H in Hd. lra.
Qed.

End BatchNormExample.

(** ** The prediction *)

Section PredictionFacts.

Import Model.
Local Open Scope string_scope.

Variable impl : CellImpl.
Variable gradients : (Values -> option R) -> list string -> Values -> list tensor.

Lemma vsum_exp_pos (l : vec) : l <> [] -> 0 < vsum (map exp l).
Proof.
  intros Hl. destruct l as [|a l]; [congruence|]. clear Hl.
  cbn [map]. rewrite vsum_cons.
  assert (0 <= vsum (map exp l)) as H.
  { induction l as [|b l IH]; cbn [map]; [cbn; lra|].
    rewrite vsum_cons. pose proof (exp_pos b). lra. }
  pose proof (exp_pos a). lra.
Qed.

Lemma vsum_map_div {A : Type} (f : A -> R) c l :
  vsum (map (fun x => f x / c) l) = vsum (map f l) / c.
Proof.
  induction l as [|a l IH]; cbn [map]; [cbn; unfold Rdiv; ring|].
  rewrite !vsum_cons, IH. unfold Rdiv. ring.
Qed.

Lemma softmax_nonneg (l : vec) : Forall (fun p => 0 <= p) (TF.softmax l).
Proof.
  unfold TF.softmax. apply Forall_forall. intros p Hp.
  apply list_elem_of_fmap in Hp as (a & -> & Ha).
  left. apply Rdiv_lt_0_compat; [apply exp_pos|].
  apply vsum_exp_pos. intros ->. now apply elem_of_nil in Ha.
Qed.

Lemma softmax_sum (l : vec) : l <> [] -> vsum (TF.softmax l) = 1.
Proof.
  intros Hl. unfold TF.softmax. rewrite (vsum_map_div exp).
  pose proof (vsum_exp_pos l Hl). field. lra.
Qed.

Lemma length_softmax (l : vec) : length (TF.softmax l) = length l.
Proof. unfold TF.softmax. apply length_map. Qed.


Lemma embedding_lookup_valid table ids :
  is_Some (TF.embedding_lookup table ids) <-> valid_tokens table ids.
Proof.
  unfold TF.embedding_lookup, valid_tokens.
  rewrite mapM_is_Some. apply Forall_iff. intros row.
  unfold compose. cbv beta.
  etransitivity; [apply mapM_is_Some|]. apply Forall_iff.
  intros id. unfold compose, TF.lookup_row. cbv beta.
  destruct (Z.ltb_spec id 0) as [Hneg|Hpos].
  - split; [intros [? [=]] | lia].
  - rewrite lookup_lt_is_Some. lia.
Qed.

Lemma multi_call_states scope run t i cs x state :
  length (multi_call impl scope run t i cs x state).2 = length cs.
Proof.
  revert i x. induction cs as [|c cs IH]; intros i x; [reflexivity|].
  cbn [multi_call]. destruct (call impl _ _ _ _ _ _ _) as [out new_state].
  specialize (IH (S i) out).
  destruct (multi_call impl scope run t (S i) cs out state) as [final ss].
  cbn [snd length] in *. now rewrite IH.
Qed.

(** Every timestep of the loop appends one output. *)
Lemma unroll_outputs scope run cs x steps state outs :
  length (unroll impl scope run cs x steps state outs).1
  = (length outs + length steps)%nat.
Proof.
  revert state outs. induction steps as [|t steps IH]; intros state outs.
  - cbn. lia.
  - cbn [unroll]. destruct (multi_call _ _ _ _ _ _ _ _) as [out state'].
    rewrite IH, length_app. cbn. lia.
Qed.

Lemma length_concat_rows {A : Type} (X : list (list A)) T :
  Forall (fun s => length s = T) X -> length (concat X) = (length X * T)%nat.
Proof.
  induction 1 as [|s X Hs _ IH]; [reflexivity|].
  cbn [concat length]. rewrite length_app, IH, Hs. lia.
Qed.

Lemma stack1_rows B outs :
  length (TF.flatten_batch (TF.stack1 B outs)) = (B * length outs)%nat.
Proof.
  unfold TF.flatten_batch, TF.stack1.
  rewrite (length_concat_rows _ (length outs)).
  - now rewrite length_map, length_seq.
  - apply Forall_forall. intros s Hs.
    apply list_elem_of_fmap in Hs as (b & -> & _). apply length_map.
Qed.

(** On valid tokens the hidden outputs are computed, one row per
    sequence and timestep. *)
Lemma layer_runs self T run x :
  embedded embedding_var run = Some x ->
  exists o, layer impl self embedding_var T run = Some o
            /\ length o = (length x * T)%nat.
Proof.
  intros Hx. unfold layer, outputs, unrolled, initial_state, inputs,
    batch_size.
  rewrite !Hx. cbn [mbind option_bind _batch_size].
  eexists. split; [reflexivity|].
  unfold TF.dropout_mat. rewrite length_imap, stack1_rows, unroll_outputs.
  cbn [length]. now rewrite length_seq.
Qed.

Lemma length_batch_norm x decay tr beta mm mv :
  length (TF.batch_norm x decay tr beta mm mv) = length x.
Proof. unfold TF.batch_norm. apply length_map. Qed.

Lemma projected_runs self T V run x :
  embedded embedding_var run = Some x ->
  exists y, projected impl self T V run = Some y
            /\ length y = (length x * T)%nat.
Proof.
  intros Hx. destruct (layer_runs self T run x Hx) as (o & Ho & Hlen).
  unfold projected, batch_normalized, add_node, matmul_node.
  destruct (_batch_norm_decay self) as [decay|]; rewrite Ho;
    cbn [mbind option_bind]; eexists; (split; [reflexivity|]).
  - unfold TF.matmul. now rewrite length_batch_norm, length_map.
  - unfold TF.add, TF.matmul. now rewrite !length_map.
Qed.

Lemma batch_size_runs run x :
  embedded embedding_var run = Some x ->
  batch_size embedding_var run = Some (length x).
Proof. intros Hx. unfold batch_size. now rewrite Hx. Qed.

Lemma prediction_runs self T V run :
  is_Some (prediction (reshaped embedding_var T (projected impl self T V)) run)
  <-> is_Some (embedded embedding_var run).
Proof.
  split.
  - intros [p Hp]. unfold prediction, reshaped, batch_size in Hp.
    destruct (embedded embedding_var run) as [x|]; [eauto|].
    destruct (projected impl self T V run); discriminate.
  - intros [x Hx]. destruct (projected_runs self T V run x Hx) as (y & Hy & _).
    unfold prediction, reshaped.
    rewrite Hy, (batch_size_runs run x Hx). cbn. eauto.
Qed.

(** X1. The forward pass returns a prediction exactly when every input token
    indexes a row of the embedding table. *)
Theorem prediction_iff_valid_tokens (config : gmap string nat) (o : Options)
    (m : LSTMLanguageModel) (run : Run) (T : nat) :
  construct impl gradients config o = inr m ->
  config !! "num_steps" = Some T ->
  Forall (fun s => length s = T) (feed_inputs (feed run)) ->
  is_Some (_prediction (network m) run)
  <-> valid_tokens (as_mat (values run "embedding")) (feed_inputs (feed run)).
Proof.
  intros Hm _ _.
  apply construct_inr in Hm
    as (T' & V & E & n & _ & _ & _ & _ & _ & _ & _ & _ & Hlogit & Hpred & _).
  rewrite Hpred, Hlogit, prediction_runs. apply embedding_lookup_valid.
Qed.

(** X2. Every row of a prediction is a probability distribution over the
    vocabulary: its entries are not negative and sum to one (or it is
    empty, when the projection has no column).  The dropouts divide by
    the keep-probability, which is taken positive. *)
Theorem prediction_rows_are_distributions (config : gmap string nat)
    (o : Options) (m : LSTMLanguageModel) (run : Run) (p : list mat) :
  construct impl gradients config o = inr m ->
  0 < __keep_prob (settings m) run ->
  _prediction (network m) run = Some p ->
  Forall (Forall (fun row => row = [] \/ distribution row)) p.
Proof.
  intros Hm _ Hp.
  apply construct_inr in Hm
    as (T & V & E & n & _ & _ & _ & _ & _ & _ & _ & _ & _ & Hpred & _).
  rewrite Hpred in Hp. unfold prediction in Hp.
  destruct (logit (network m) run) as [lg|]; [|discriminate].
  injection Hp as <-.
  apply Forall_forall. intros s Hs.
  apply list_elem_of_fmap in Hs as (rows & -> & _).
  apply Forall_forall. intros row Hrow.
  apply list_elem_of_fmap in Hrow as (l & -> & _).
  destruct l as [|a l]; [now left|]. right. split.
  - apply softmax_nonneg.
  - now apply softmax_sum.
Qed.


Lemma length_vec_mat v W n :
  Forall (fun row => length row = n) W -> length (vec_mat v W n) = n.
Proof.
  intros HW. revert v. induction HW as [|row W Hrow _ IH]; intros v.
  - destruct v; apply length_zeros.
  - destruct v as [|a v]; [apply length_zeros|].
    cbn [vec_mat]. unfold vadd, vscale.
    rewrite length_zip_with, length_map, Hrow, IH. lia.
Qed.

Lemma projected_widths self T V run y :
  projected impl self T V run = Some y ->
  Forall (fun row => length row = V) (as_mat (fc_weight (values run))) ->
  (_batch_norm_decay self = None ->
   length (as_vec (fc_bias (values run))) = V) ->
  Forall (fun row => length row = V) y.
Proof.
  intros Hy HW Hb. revert Hy Hb. unfold projected.
  destruct (_batch_norm_decay self) as [decay|];
    unfold batch_normalized, add_node, matmul_node; cbv beta zeta;
    (destruct (layer impl self embedding_var T run) as [o|];
     cbn [mbind option_bind]; [|discriminate]);
    intros [= <-] Hb.
  - unfold TF.batch_norm, TF.matmul. apply Forall_forall. intros row Hrow.
    apply list_elem_of_fmap in Hrow as (r & -> & Hr).
    apply list_elem_of_fmap in Hr as (v & -> & _).
    rewrite length_imap. now apply length_vec_mat.
  - unfold TF.add, TF.matmul. apply Forall_forall. intros row Hrow.
    apply list_elem_of_fmap in Hrow as (r & -> & Hr).
    apply list_elem_of_fmap in Hr as (v & -> & _).
    unfold vadd. rewrite length_zip_with, length_vec_mat, Hb by auto. lia.
Qed.

(** Splitting [B * T] rows gives [B] sequences of [T] rows. *)
Lemma reshape3_shape (P : vec -> Prop) B T (y : mat) :
  length y = (B * T)%nat -> Forall P y ->
  length (TF.reshape3 B T y) = B
  /\ Forall (fun s => length s = T /\ Forall P s) (TF.reshape3 B T y).
Proof.
  intros Hlen HP. unfold TF.reshape3. split.
  - now rewrite length_map, length_seq.
  - apply Forall_forall. intros s Hs.
    apply list_elem_of_fmap in Hs as (b & -> & Hb).
    apply elem_of_seq in Hb. split.
    + rewrite length_take, length_drop, Hlen. nia.
    + now apply Forall_take, Forall_drop.
Qed.

(** X3. On valid tokens and a projection of the declared shape, the
    prediction has one sequence per input sequence, one row per timestep
    and one entry per word of the vocabulary. *)
Theorem prediction_shape (config : gmap string nat) (o : Options)
    (m : LSTMLanguageModel) (run : Run) (T V : nat) :
  construct impl gradients config o = inr m ->
  config !! "num_steps" = Some T ->
  config !! "vocab_size" = Some V ->
  Forall (fun s => length s = T) (feed_inputs (feed run)) ->
  valid_tokens (as_mat (values run "embedding")) (feed_inputs (feed run)) ->
  Forall (fun row => length row = V)
         (as_mat (values run "fully_connected/fc/weight")) ->
  (batch_norm o = None ->
   length (as_vec (values run "fully_connected/fc/bias")) = V) ->
  exists p,
    _prediction (network m) run = Some p
    /\ has_shape (length (feed_inputs (feed run))) T V p.
Proof.
  intros Hm HT HV _ Hvalid HW Hb.
  apply construct_inr in Hm
    as (T' & V' & E & n & HT' & HV' & _ & _ & Hs & _ & _ & _ & Hlogit & Hpred
        & _).
  rewrite HT in HT'. injection HT' as <-.
  rewrite HV in HV'. injection HV' as <-.
  apply embedding_lookup_valid in Hvalid as [x Hx].
  assert (length x = length (feed_inputs (feed run))) as Hbatch.
  { symmetry. eapply length_mapM, Hx. }
  change (embedded embedding_var run = Some x) in Hx.
  destruct (projected_runs (settings m) T V run x Hx) as (y & Hy & Hlen).
  assert (Forall (fun row => length row = V) y) as Hwidth.
  { eapply projected_widths; [exact Hy|exact HW|].
    rewrite Hs. exact Hb. }
  rewrite Hpred, Hlogit. unfold prediction, reshaped.
  rewrite Hy, (batch_size_runs run x Hx). cbn [mbind option_bind].
  eexists. split; [reflexivity|].
  destruct (reshape3_shape (fun row => length row = V) (length x) T y Hlen
              Hwidth) as [HB Hseqs].
  unfold has_shape.
  split; [rewrite length_map; etransitivity; [exact HB|exact Hbatch]|].
  apply Forall_forall. intros s Hs'.
  apply list_elem_of_fmap in Hs' as (rows & -> & Hrows).
  rewrite Forall_forall in Hseqs. destruct (Hseqs rows Hrows) as [HT' Hrw].
  rewrite length_map. split; [exact HT'|].
  apply Forall_forall. intros row Hrow.
  apply list_elem_of_fmap in Hrow as (l & -> & Hl).
  rewrite length_softmax. rewrite Forall_forall in Hrw. now apply Hrw.
Qed.

End PredictionFacts.

(** ** Clipping *)

Section ClippingFacts.

Import Model.
Local Open Scope string_scope.

Variable impl : CellImpl.
Variable gradients : (Values -> option R) -> list string -> Values -> list tensor.

Lemma tmap_ext f g t : (forall x, f x = g x) -> tmap f t = tmap g t.
Proof.
  intros Hfg. destruct t as [v|m]; cbn [tmap]; f_equal;
    repeat (apply map_ext; intros); apply Hfg.
Qed.

Lemma tmap_id t : tmap (fun x => x) t = t.
Proof.
  destruct t as [v|m]; cbn [tmap]; f_equal; [apply map_id|].
  induction m as [|row m IH]; cbn [map]; [reflexivity|].
  now rewrite map_id, IH.
Qed.

(** Gradients whose global norm is within a positive threshold pass the
    clipping unchanged. *)
Lemma clip_within ts c :
  0 < c -> TF.global_norm ts <= c -> (TF.clip_by_global_norm ts c).1 = ts.
Proof.
  intros Hc Hn. unfold TF.clip_by_global_norm. cbn [fst].
  rewrite Rmax_right by exact Hn.
  rewrite <- (map_id ts) at 2. apply map_ext. intros t.
  rewrite <- (tmap_id t) at 2. apply tmap_ext. intros x. field. lra.
Qed.

(** Gradients whose global norm exceeds the threshold are multiplied by
    the ratio of the threshold to the norm, and the norm of the result
    is the threshold. *)
Lemma clip_beyond ts c :
  0 < c -> c <= TF.global_norm ts ->
  (TF.clip_by_global_norm ts c).1
  = map (tmap (fun x => x * (c / TF.global_norm ts))) ts
  /\ TF.global_norm (TF.clip_by_global_norm ts c).1 = c.
Proof.
  intros Hc Hn.
  assert ((TF.clip_by_global_norm ts c).1
          = map (tmap (fun x => x * (c / TF.global_norm ts))) ts) as Heq.
  { unfold TF.clip_by_global_norm. cbn [fst].
    rewrite Rmax_left by exact Hn.
    apply map_ext. intros t. apply tmap_ext. intros x.
    unfold Rdiv. ring. }
  split; [exact Heq|]. rewrite Heq.
  unfold TF.global_norm at 1. rewrite total_squares_scaled.
  assert (0 <= c / TF.global_norm ts) as Hk by (apply Rle_mult_inv_pos; lra).
  rewrite sqrt_mult by (try apply total_squares_nonneg; nra).
  rewrite sqrt_square by exact Hk.
  fold (TF.global_norm ts). field. lra.
Qed.

(** X4. When the global norm of the gradients is within the configured
    threshold, the clipped training step is the step of plain gradient
    descent on the gradients themselves, the one taken when no threshold
    is configured. *)
Theorem clip_within_threshold (config : gmap string nat) (o : Options)
    (m : LSTMLanguageModel) (run : Run) (l c : R) :
  construct impl gradients config o = inr m ->
  gradient_clip o = Some c ->
  0 < c ->
  _loss (network m) run = Some l ->
  let names := map var_name (trainable_variables (variables m)) in
  let grads := loss_gradients gradients (_loss (network m)) names run in
  TF.global_norm grads <= c ->
  _train_op (network m) run
  = Some (TF.apply_gradients (learning_rate o) (zip grads names)
                             (values run)).
Proof.
  intros Hm Hclip Hc Hl names grads Hn.
  apply construct_inr in Hm
    as (T & V & E & n & _ & _ & _ & _ & Hs & _ & _ & _ & _ & _ & Htv & _
        & Htrain).
  rewrite Htrain. unfold train_op. rewrite Htv. fold names.
  assert (_lr (settings m) = learning_rate o) as -> by now rewrite Hs.
  assert (_clip (settings m) = gradient_clip o) as -> by now rewrite Hs.
  rewrite Hclip, Hl. cbn [mbind option_bind]. fold grads.
  now rewrite clip_within.
Qed.

(** X5. When the global norm of the gradients reaches or exceeds the
    configured threshold, the training step applies the gradients multiplied by the
    common factor threshold / norm: their direction is kept and their
    global norm is the threshold itself. *)
Theorem clip_beyond_threshold (config : gmap string nat) (o : Options)
    (m : LSTMLanguageModel) (run : Run) (l c : R) :
  construct impl gradients config o = inr m ->
  gradient_clip o = Some c ->
  0 < c ->
  _loss (network m) run = Some l ->
  let names := map var_name (trainable_variables (variables m)) in
  let grads := loss_gradients gradients (_loss (network m)) names run in
  c <= TF.global_norm grads ->
  let applied := map (tmap (fun x => x * (c / TF.global_norm grads))) grads in
  _train_op (network m) run
  = Some (TF.apply_gradients (learning_rate o) (zip applied names)
                             (values run))
  /\ TF.global_norm applied = c.
Proof.
  intros Hm Hclip Hc Hl names grads Hn applied.
  apply construct_inr in Hm
    as (T & V & E & n & _ & _ & _ & _ & Hs & _ & _ & _ & _ & _ & Htv & _
        & Htrain).
  rewrite Htrain. unfold train_op. rewrite Htv. fold names.
  assert (_lr (settings m) = learning_rate o) as -> by now rewrite Hs.
  assert (_clip (settings m) = gradient_clip o) as -> by now rewrite Hs.
  rewrite Hclip, Hl. cbn [mbind option_bind]. fold grads.
  destruct (clip_beyond grads c Hc Hn) as [Heq Hnorm].
  rewrite Heq in Hnorm. rewrite Heq. fold applied. fold applied in Hnorm.
  split; [reflexivity|exact Hnorm].
Qed.

End ClippingFacts.

(** ** The sign of the loss *)

Section LossSign.

Import Model.
Local Open Scope string_scope.

Variable impl : CellImpl.
Variable gradients : (Values -> option R) -> list string -> Values -> list tensor.

Lemma zip_with_nonneg (f : R -> R -> R) (a b : vec) :
  (forall x y, 0 <= x -> 0 <= y -> 0 <= f x y) ->
  Forall (fun x => 0 <= x) a -> Forall (fun x => 0 <= x) b ->
  Forall (fun x => 0 <= x) (zip_with f a b).
Proof.
  intros Hf Ha. revert b.
  induction Ha as [|x a Hx _ IH]; intros b Hb; [constructor|].
  destruct Hb as [|y b Hy Hb]; [constructor|].
  cbn [zip_with]. constructor; [now apply Hf|now apply IH].
Qed.

Lemma vsum_nonneg (v : vec) : Forall (fun x => 0 <= x) v -> 0 <= vsum v.
Proof.
  induction 1 as [|x v Hx _ IH]; [cbn; lra|]. rewrite vsum_cons. lra.
Qed.

Lemma zeros_nonneg n : Forall (fun x => 0 <= x) (zeros n).
Proof. apply Forall_replicate. lra. Qed.

Lemma reduce_sum_axis0_nonneg T (x : mat) :
  Forall (Forall (fun a => 0 <= a)) x ->
  Forall (fun a => 0 <= a) (TF.reduce_sum_axis0 T x).
Proof.
  unfold TF.reduce_sum_axis0.
  induction 1 as [|row x Hrow _ IH]; cbn [foldr]; [apply zeros_nonneg|].
  apply zip_with_nonneg; [intros; lra|exact Hrow|exact IH].
Qed.

Lemma quotient_nonneg x y : 0 <= x -> 0 <= y -> 0 <= x / y.
Proof.
  intros Hx [Hy| <-].
  - apply Rle_mult_inv_pos; assumption.
  - unfold Rdiv. rewrite Rinv_0. lra.
Qed.

(** The exponential of an entry of a row is at most the sum of the
    exponentials of the row. *)
Lemma exp_entry_le_sum (row : vec) i l :
  row !! i = Some l -> exp l <= vsum (map exp row).
Proof.
  revert i. induction row as [|a row IH]; intros i Hi; [discriminate|].
  cbn [map]. rewrite vsum_cons.
  assert (0 <= vsum (map exp row)) as Hrest.
  { apply vsum_nonneg, Forall_forall. intros x Hx.
    apply list_elem_of_fmap in Hx as (y & -> & _). left. apply exp_pos. }
  destruct i as [|i]; cbn in Hi.
  - injection Hi as ->. lra.
  - pose proof (IH i Hi). pose proof (exp_pos a). lra.
Qed.

Lemma cross_entropy_nonneg row label x :
  TF.cross_entropy row label = Some x -> 0 <= x.
Proof.
  unfold TF.cross_entropy. destruct (label <? 0)%Z; [discriminate|].
  destruct (row !! Z.to_nat label) as [l|] eqn:Hl; [|discriminate].
  cbn [mbind option_bind]. intros [= <-].
  pose proof (exp_entry_le_sum row _ l Hl) as Hle.
  pose proof (exp_pos l) as Hpos.
  assert (l <= ln (vsum (map exp row))); [|lra].
  rewrite <- (ln_exp l) at 1.
  destruct Hle as [Hlt| <-]; [left; apply ln_increasing; assumption|lra].
Qed.

Lemma cross_entropies_nonneg lg targets xs :
  TF.cross_entropies lg targets = Some xs ->
  Forall (Forall (fun x => 0 <= x)) xs.
Proof.
  unfold TF.cross_entropies. intros Hxs.
  apply mapM_Some in Hxs.
  induction Hxs as [|[rows labels] ys ? ? Hy _ IH]; constructor; [|exact IH].
  apply mapM_Some in Hy.
  induction Hy as [|[row label] y ? ? Hy _ IH']; constructor; [|exact IH'].
  eapply cross_entropy_nonneg, Hy.
Qed.

Lemma ones_nonneg B T : Forall (Forall (fun x => 0 <= x)) (TF.ones B T).
Proof.
  unfold TF.ones. apply Forall_replicate, Forall_replicate. lra.
Qed.

Lemma sequence_loss_nonneg T lg targets B lv :
  TF.sequence_loss T lg targets (TF.ones B T) false true = Some lv ->
  0 <= TF.reduce_sum lv.
Proof.
  unfold TF.sequence_loss.
  destruct (TF.cross_entropies lg targets) as [xs|] eqn:Hxs; [|discriminate].
  cbn [mbind option_bind]. intros [= <-]. cbn [TF.reduce_sum].
  apply cross_entropies_nonneg in Hxs.
  apply vsum_nonneg. unfold TF.vdiv.
  apply zip_with_nonneg; [apply quotient_nonneg| |];
    apply reduce_sum_axis0_nonneg; [|apply ones_nonneg].
  pose proof (ones_nonneg B T) as Hw. revert Hw. generalize (TF.ones B T).
  induction Hxs as [|row xs Hrow _ IH]; intros w Hw; [constructor|].
  destruct Hw as [|wrow w Hwrow Hw]; [constructor|].
  cbn [zip_with]. constructor; [|now apply IH].
  apply zip_with_nonneg; [intros; nra|exact Hrow|exact Hwrow].
Qed.

Lemma l2_loss_nonneg t : 0 <= TF.l2_loss t.
Proof.
  unfold TF.l2_loss. pose proof (squares_nonneg (as_vec t)). lra.
Qed.

(** X6. With a weight-decay coefficient that is not negative, the loss is
    not negative, in training and outside: every cross-entropy is the
    negated logarithm of a probability and the penalty is a sum of
    squares.  (The dropouts divide by the keep-probability, which is
    taken positive.) *)
Theorem loss_nonnegative (config : gmap string nat) (o : Options)
    (m : LSTMLanguageModel) (run : Run) (l : R) :
  construct impl gradients config o = inr m ->
  0 <= weight_decay o ->
  0 < __keep_prob (settings m) run ->
  _loss (network m) run = Some l ->
  0 <= l.
Proof.
  intros Hm Hwd _ Hl.
  apply construct_inr in Hm
    as (T & V & E & n & _ & _ & _ & _ & Hs & _ & _ & _ & _ & _ & _ & Hloss
        & _).
  rewrite Hloss in Hl. unfold total_loss in Hl.
  destruct (loss embedding_var T (logit (network m)) run) as [lv|] eqn:Hlv;
    [|discriminate].
  cbn [mbind option_bind] in Hl. injection Hl as <-.
  assert (0 <= TF.reduce_sum lv) as Hce.
  { unfold loss in Hlv.
    destruct (logit (network m) run) as [lg|]; [|discriminate].
    cbn [mbind option_bind] in Hlv.
    destruct (batch_size embedding_var run) as [B|]; [|discriminate].
    cbn [mbind option_bind] in Hlv.
    eapply sequence_loss_nonneg, Hlv. }
  assert (0 <= __weight_decay (settings m) run) as Hcoef.
  { unfold __weight_decay, TF.where_. rewrite Hs.
    cbn [settings_of _weight_decay]. destruct (is_train_of run); lra. }
  assert (0 <= l2_loss (t_vars (network m)) run) as Hl2.
  { unfold l2_loss, TF.add_n. apply vsum_nonneg, Forall_forall.
    intros x Hx. apply list_elem_of_fmap in Hx as (v & -> & _).
    apply l2_loss_nonneg. }
  nra.
Qed.

End LossSign.

(** ** Success of the construction *)

Ltac bind_step H a st1 H1 :=
  apply bind_inr in H as (a & st1 & H1 & H); cbv beta in H.

Section ConstructionSuccess.

Import Model.
Local Open Scope string_scope.

Variable impl : CellImpl.
Variable gradients : (Values -> option R) -> list string -> Values -> list tensor.

Lemma keeps_bind {A B : Type} (m : Build A) (k : A -> Build B) :
  keeps_distinct m -> (forall a, keeps_distinct (k a)) ->
  keeps_distinct (bind m k).
Proof.
  intros Hm Hk st b st' Hst H. bind_step H a st1 H1.
  eapply Hk; [|exact H]. eapply Hm; [exact Hst|exact H1].
Qed.

Lemma keeps_ret {A : Type} (a : A) : keeps_distinct (ret a).
Proof. intros st b st' Hst [= _ <-]. exact Hst. Qed.

Lemma keeps_raise {A : Type} e : keeps_distinct (@raise A e).
Proof. intros st b st' _ H. discriminate. Qed.

Lemma keeps_getitem config key : keeps_distinct (getitem config key).
Proof.
  intros st v st' Hst H. apply getitem_inr in H as [_ ->]. exact Hst.
Qed.

Lemma keeps_current : keeps_distinct current_variables.
Proof. intros st b st' Hst [= _ <-]. exact Hst. Qed.

Lemma keeps_get_variable name shape init tr :
  keeps_distinct (get_variable name shape init tr).
Proof.
  intros st f st' Hst H. apply get_variable_inr in H as (_ & -> & Hfresh).
  unfold distinct_names in *. rewrite map_app. apply NoDup_app.
  split; [exact Hst|]. split; [|apply NoDup_singleton].
  intros x Hx Hin. cbn in Hin. apply list_elem_of_singleton in Hin as ->.
  contradiction.
Qed.

Lemma keeps_declare_all ds : keeps_distinct (declare_all ds).
Proof.
  induction ds as [|d ds IH]; cbn [declare_all]; [apply keeps_ret|].
  apply keeps_bind; [apply keeps_get_variable|intros _; exact IH].
Qed.

Lemma keeps_declare_cells scope i cs depth :
  keeps_distinct (declare_cells impl scope i cs depth).
Proof.
  revert i depth. induction cs as [|c cs IH]; intros i depth;
    cbn [declare_cells]; [apply keeps_ret|].
  apply keeps_bind; [apply keeps_declare_all|intros _; apply IH].
Qed.

Lemma keeps_full_connected outer x shape scope bias init :
  keeps_distinct (_full_connected outer x shape scope bias init).
Proof.
  unfold _full_connected. cbv zeta.
  apply keeps_bind; [apply keeps_get_variable|intros w].
  destruct bias; [|apply keeps_ret].
  apply keeps_bind; [apply keeps_get_variable|intros b; apply keeps_ret].
Qed.

Ltac keeps :=
  repeat first
    [ apply keeps_ret | apply keeps_raise | apply keeps_getitem
    | apply keeps_current | apply keeps_get_variable
    | apply keeps_declare_cells | apply keeps_full_connected
    | apply keeps_bind; [|intros ?]
    | match goal with
      | |- keeps_distinct (match ?x with _ => _ end) => destruct x
      end ].

Lemma keeps_build_model self :
  keeps_distinct (_build_model impl gradients self).
Proof. unfold _build_model. cbv zeta. keeps. Qed.

Lemma keeps_init config o : keeps_distinct (__init__ impl gradients config o).
Proof.
  unfold __init__. cbv zeta.
  apply keeps_bind; [keeps|intros cp].
  apply keeps_bind; [apply keeps_build_model|intros net]. keeps.
Qed.

(** A constructed model has no two variables of one name. *)
Lemma construct_distinct config o m :
  construct impl gradients config o = inr m -> distinct_names (variables m).
Proof.
  unfold construct.
  destruct (__init__ impl gradients config o []) as [e|[m' st]] eqn:H;
    [discriminate|].
  intros [= ->].
  assert (distinct_names st) as Hst.
  { eapply keeps_init; [|exact H]. constructor. }
  unfold __init__ in H. bind_step H cp st0 Hcp. bind_step H net st1 Hnet.
  bind_step H st2 st3 Hcur. injection Hcur as <- <-.
  injection H as <- <-. exact Hst.
Qed.

(** Running the steps of the construction on fresh names. *)
Lemma bind_get_variable_fresh {B : Type} name shape init tr
    (k : (Values -> tensor) -> Build B) st :
  (name ∉ map var_name st) ->
  bind (get_variable name shape init tr) k st
  = k (fun vals => vals name) (st ++ [declaration name shape init tr])%list.
Proof.
  intros Hfresh. unfold bind, get_variable, declared.
  now rewrite bool_decide_eq_false_2.
Qed.

Ltac fresh_variable H :=
  rewrite ?bind_assoc; rewrite bind_get_variable_fresh by exact H; cbv beta.

Lemma distinct_prefix (l k : list VarDecl) :
  distinct_names (l ++ k) -> distinct_names l.
Proof.
  unfold distinct_names. rewrite map_app. intros H.
  now apply NoDup_app in H as [H _].
Qed.

Lemma distinct_next (l : list VarDecl) d post :
  distinct_names (l ++ d :: post) ->
  (var_name d ∉ map var_name l) /\ distinct_names ((l ++ [d]) ++ post).
Proof.
  intros H. split.
  - unfold distinct_names in H. rewrite map_app in H.
    apply NoDup_app in H as (_ & H & _). intros Hin.
    apply (H _ Hin). cbn [map]. apply elem_of_cons. now left.
  - now rewrite <- app_assoc.
Qed.

Lemma declare_all_fresh ds st :
  distinct_names (st ++ ds) -> declare_all ds st = inr (tt, (st ++ ds)%list).
Proof.
  revert st. induction ds as [|d ds IH]; intros st H.
  - now rewrite app_nil_r.
  - cbn [declare_all]. apply distinct_next in H as [Hfresh H].
    rewrite bind_get_variable_fresh by exact Hfresh.
    destruct d as [name shape init tr]. cbn [var_name var_shape var_init
      var_trainable] in *. unfold declaration. rewrite IH by exact H.
    now rewrite <- app_assoc.
Qed.

Lemma declare_cells_fresh scope i cs depth st :
  distinct_names (st ++ cells_declarations impl scope i cs depth) ->
  declare_cells impl scope i cs depth st
  = inr (tt, (st ++ cells_declarations impl scope i cs depth)%list).
Proof.
  revert i depth st. induction cs as [|c cs IH]; intros i depth st H.
  - cbn. now rewrite app_nil_r.
  - cbn [declare_cells cells_declarations] in *. rewrite app_assoc in H.
    unfold bind. rewrite declare_all_fresh by exact (distinct_prefix _ _ H).
    rewrite IH by exact H. now rewrite app_assoc.
Qed.

Lemma bind_current {B : Type} (k : list VarDecl -> Build B) st :
  bind current_variables k st = k st st.
Proof. reflexivity. Qed.

Lemma count_foldl (f : VarDecl -> nat) (rest : list VarDecl) (a : nat) :
  foldl (fun acc var => (acc + f var)%nat) a rest
  = (a + foldr (fun d acc => (f d + acc)%nat) 0%nat rest)%nat.
Proof.
  revert a. induction rest as [|d rest IH]; intros a; cbn [foldl foldr];
    [lia|].
  rewrite IH. lia.
Qed.

Lemma trainable_cons d st :
  var_trainable d = true ->
  trainable_variables (d :: st) = d :: trainable_variables st.
Proof.
  intros Hd. unfold trainable_variables. now rewrite filter_cons_True.
Qed.

Ltac store_built :=
  match goal with
  | |- exists net, _ = inr (net, ?gv) /\ _ =>
      match goal with
      | |- context [trainable_variables ?st] =>
          replace st with gv
            by (cbn [app]; rewrite <- ?app_assoc; reflexivity)
      end
  end;
  rewrite !trainable_cons by reflexivity; cbv beta iota;
  eexists; split; [reflexivity|];
  cbn [_n_var]; rewrite count_foldl; unfold count_parameters;
  rewrite trainable_cons by reflexivity; reflexivity.

(** With its keys present and the names of its variables distinct,
    [_build_model] returns, and counts the scalars of the trainable
    variables. *)
Lemma build_model_runs self T V E n :
  _config self !! "num_steps" = Some T ->
  _config self !! "vocab_size" = Some V ->
  _config self !! "embedding_size" = Some E ->
  _config self !! "n_hidden" = Some n ->
  distinct_names (graph_variables impl self T V E n) ->
  exists net,
    _build_model impl gradients self [] = inr (net, graph_variables impl self T V E n)
    /\ _n_var net = count_parameters (graph_variables impl self T V E n).
Proof.
  intros HT HV HE Hn Hnd.
  assert (forall (A : Type) (k : nat -> Build A) st,
            bind (getitem (_config self) "num_steps") k st = k T st) as RT.
  { intros. now apply bind_getitem_some. }
  assert (forall (A : Type) (k : nat -> Build A) st,
            bind (getitem (_config self) "vocab_size") k st = k V st) as RV.
  { intros. now apply bind_getitem_some. }
  assert (forall (A : Type) (k : nat -> Build A) st,
            bind (getitem (_config self) "embedding_size") k st = k E st)
    as RE.
  { intros. now apply bind_getitem_some. }
  assert (forall (A : Type) (k : nat -> Build A) st,
            bind (getitem (_config self) "n_hidden") k st = k n st) as Rn.
  { intros. now apply bind_getitem_some. }
  unfold graph_variables in *.
  set (cs := match T with
             | O => []
             | S _ => cells_declarations impl "stacked_lstm" 0 (stacked self) E
             end) in *.
  change (declaration "embedding" [V; E] DefaultInit true
          :: (cs ++ projection_variables self n V))%list
    with ([] ++ declaration "embedding" [V; E] DefaultInit true
             :: (cs ++ projection_variables self n V))%list in Hnd.
  apply distinct_next in Hnd as [Hemb Hnd].
  rewrite app_assoc in Hnd.
  assert (match T with
          | O => ret tt
          | S _ => declare_cells impl "stacked_lstm" 0 (stacked self) E
          end ([] ++ [declaration "embedding" [V; E] DefaultInit true])%list
          = inr (tt, (([] ++ [declaration "embedding" [V; E] DefaultInit true])
                      ++ cs)%list)) as Hcells.
  { subst cs. destruct T.
    - now rewrite app_nil_r.
    - apply declare_cells_fresh. exact (distinct_prefix _ _ Hnd). }
  unfold _build_model. cbv zeta.
  rewrite !RT, RV, RE. fresh_variable Hemb.
  rewrite RT. unfold bind at 1. rewrite Hcells. cbv beta iota.
  rewrite !Rn, RV. unfold _full_connected, projection_variables in *.
  cbv zeta. cbn [default List.last] in *.
  destruct (_batch_norm_decay self) as [decay|].
  - apply distinct_next in Hnd as [Hw Hnd].
    apply distinct_next in Hnd as [Hbeta Hnd].
    apply distinct_next in Hnd as [Hmm Hnd].
    apply distinct_next in Hnd as [Hmv Hnd].
    fresh_variable Hw. rewrite bind_ret. cbv beta.
    fresh_variable Hbeta. fresh_variable Hmm. fresh_variable Hmv.
    rewrite bind_ret. cbv beta. rewrite RT, RV, RT, !bind_current.
    store_built.
  - apply distinct_next in Hnd as [Hw Hnd].
    apply distinct_next in Hnd as [Hb Hnd].
    fresh_variable Hw. fresh_variable Hb.
    rewrite bind_ret. cbv beta. rewrite RT, RV, RT, !bind_current.
    store_built.
Qed.

(** The same for the constructor. *)
Lemma init_runs config o T V E n :
  config !! "num_steps" = Some T ->
  config !! "vocab_size" = Some V ->
  config !! "embedding_size" = Some E ->
  config !! "n_hidden" = Some n ->
  (type_of_lstm o = Some "hypernets" ->
   is_Some (config !! "n_hidden_hyper")
   /\ is_Some (config !! "n_embedding_hyper")) ->
  distinct_names (graph_variables impl (settings_of config o n) T V E n) ->
  exists net,
    __init__ impl gradients config o []
    = inr ({| settings := settings_of config o n; network := net;
              variables := graph_variables impl (settings_of config o n)
                                           T V E n |},
           graph_variables impl (settings_of config o n) T V E n)
    /\ _n_var net
       = count_parameters (graph_variables impl (settings_of config o n)
                                           T V E n).
Proof.
  intros HT HV HE Hn Hhyper Hnd.
  destruct (build_model_runs (settings_of config o n) T V E n HT HV HE Hn Hnd)
    as (net & Hnet & Hcount).
  exists net. split; [|exact Hcount].
  revert Hnet. generalize (graph_variables impl (settings_of config o n)
                                           T V E n).
  unfold __init__, settings_of, selected_class, selected_args. cbv zeta.
  intros gv Hnet.
  destruct (decide (type_of_lstm o = Some "hypernets")) as [Hh|Hh].
  - destruct (Hhyper Hh) as [[nh Hnh] [ne Hne]].
    rewrite Hnh, Hne in Hnet |- *. rewrite !bind_assoc.
    rewrite (bind_getitem_some config "n_hidden" n) by exact Hn.
    cbv beta. rewrite !bind_assoc.
    rewrite (bind_getitem_some config "n_hidden_hyper" nh) by exact Hnh.
    cbv beta. rewrite !bind_assoc.
    rewrite (bind_getitem_some config "n_embedding_hyper" ne) by exact Hne.
    cbv beta. rewrite bind_ret. cbv beta. cbn [fst snd].
    unfold bind at 1. rewrite Hnet. reflexivity.
  - rewrite !bind_assoc.
    rewrite (bind_getitem_some config "n_hidden" n) by exact Hn.
    cbv beta. rewrite bind_ret. cbv beta. cbn [fst snd].
    unfold bind at 1. rewrite Hnet. reflexivity.
Qed.



(** X7. With every key it reads present, at least one timestep and no saved
    model to restore, the construction succeeds exactly when the
    variables of the graph (the embedding, those the cells declare under
    the scopes of their layers, and those of the projection) have
    pairwise distinct names. *)
Theorem construction_succeeds_iff (config : gmap string nat) (o : Options)
    (T V E n : nat) :
  config !! "num_steps" = Some T ->
  config !! "vocab_size" = Some V ->
  config !! "embedding_size" = Some E ->
  config !! "n_hidden" = Some n ->
  (type_of_lstm o = Some "hypernets" ->
   is_Some (config !! "n_hidden_hyper")
   /\ is_Some (config !! "n_embedding_hyper")) ->
  (0 < T)%nat ->
  load_model o = None ->
  (exists m, construct impl gradients config o = inr m)
  <-> distinct_names (graph_variables impl (settings_of config o n) T V E n).
Proof.
  intros HT HV HE Hn Hhyper _ _. split.
  - intros [m Hm]. pose proof (construct_distinct config o m Hm) as Hnd.
    apply construct_inr in Hm
      as (T' & V' & E' & n' & HT' & HV' & HE' & Hn' & Hs & Hvars & _).
    rewrite HT in HT'. injection HT' as <-.
    rewrite HV in HV'. injection HV' as <-.
    rewrite HE in HE'. injection HE' as <-.
    rewrite Hn in Hn'. injection Hn' as <-.
    now rewrite Hvars, Hs in Hnd.
  - intros Hnd.
    destruct (init_runs config o T V E n HT HV HE Hn Hhyper Hnd)
      as (net & Hinit & _).
    eexists. unfold construct. rewrite Hinit. reflexivity.
Qed.


End ConstructionSuccess.

(** ** The fully connected layer *)

Section FullConnected.

Import Model.
Local Open Scope string_scope.

Lemma declared_app name (st st' : list VarDecl) :
  declared name st = true -> declared name (st ++ st') = true.
Proof.
  unfold declared. intros H. apply bool_decide_eq_true in H.
  apply bool_decide_eq_true. rewrite map_app. apply elem_of_app. now left.
Qed.

Lemma declared_last name shape init tr (st : list VarDecl) :
  declared name (st ++ [declaration name shape init tr]) = true.
Proof.
  unfold declared. apply bool_decide_eq_true. rewrite map_app.
  apply elem_of_app. right. cbn. apply elem_of_cons. now left.
Qed.

(** X9. Variables are created without reuse: once a fully connected layer
    has been built under a scope (the default one, or one with a name
    that is not empty), building a second one under the same scope fails
    with a [ValueError] on the name of its weight, whatever its input,
    shape, bias and initializer. *)
Theorem full_connected_twice (outer : string) (scope : option string)
    (x x' : node mat) (shape shape' : list nat) (bias bias' : bool)
    (init init' : Initializer) (st st' : list VarDecl) (y : node mat) :
  scope <> Some EmptyString ->
  _full_connected outer x shape scope bias init st = inr (y, st') ->
  _full_connected outer x' shape' scope bias' init' st'
  = inl (ValueError ((outer +:+ default "fully_connected" scope)
                     +:+ "/weight")).
Proof.
  unfold _full_connected. cbv zeta. intros _ H.
  apply bind_inr in H as (w & st1 & Hw & H). cbv beta in H.
  apply get_variable_inr in Hw as (-> & -> & _).
  assert (declared ((outer +:+ default "fully_connected" scope)
                    +:+ "/weight") st' = true) as Hdecl.
  { destruct bias.
    - apply bind_inr in H as (b & st2 & Hb & H). cbv beta in H.
      apply get_variable_inr in Hb as (_ & -> & _). injection H as _ <-.
      apply declared_app, declared_last.
    - injection H as _ <-. apply declared_last. }
  unfold bind at 1. unfold get_variable at 1. now rewrite Hdecl.
Qed.

End FullConnected.

(** ** The loss and the prediction *)

Section Likelihood.

Import Model.
Local Open Scope string_scope.

Variable impl : CellImpl.
Variable gradients : (Values -> option R) -> list string -> Values -> list tensor.

Lemma lookup_map {A B : Type} (f : A -> B) (l : list A) i :
  map f l !! i = f <$> l !! i.
Proof. exact (list_lookup_fmap f l i). Qed.

Lemma lookup_map_Some {A B : Type} (f : A -> B) (l : list A) i x :
  l !! i = Some x -> map f l !! i = Some (f x).
Proof. intros H. rewrite lookup_map, H. reflexivity. Qed.

(** The entry of the softmax of a row of logits at a label is the
    exponential of the negated cross-entropy of the row with the
    label. *)
Lemma cross_entropy_softmax row label x :
  TF.cross_entropy row label = Some x ->
  exists q, TF.softmax row !! Z.to_nat label = Some q /\ q = exp (- x).
Proof.
  unfold TF.cross_entropy. destruct (label <? 0)%Z; [discriminate|].
  destruct (row !! Z.to_nat label) as [l|] eqn:Hl; [|discriminate].
  cbn [mbind option_bind]. intros [= <-].
  assert (0 < vsum (map exp row)) as HS.
  { apply vsum_exp_pos. intros ->. discriminate. }
  exists (exp l / vsum (map exp row)). split.
  - unfold TF.softmax. exact (lookup_map_Some _ _ _ _ Hl).
  - replace (- (ln (vsum (map exp row)) - l))
      with (l + - ln (vsum (map exp row))) by ring.
    rewrite exp_plus, exp_Ropp, exp_ln by exact HS. reflexivity.
Qed.

(** X10. The loss and the prediction come from the same logits: for
    every sequence of the batch and every timestep, the probability the
    prediction gives to the target token is the exponential of the
    negated cross-entropy the loss averages there. *)
Theorem cross_entropy_of_prediction (config : gmap string nat) (o : Options)
    (m : LSTMLanguageModel) (run : Run) (lg p : list mat) (xs : mat)
    (b t : nat) (x : R) :
  construct impl gradients config o = inr m ->
  0 < __keep_prob (settings m) run ->
  logit (network m) run = Some lg ->
  _prediction (network m) run = Some p ->
  TF.cross_entropies lg (feed_targets (feed run)) = Some xs ->
  entry xs b t = Some x ->
  exists label row q,
    entry (feed_targets (feed run)) b t = Some label
    /\ entry p b t = Some row
    /\ row !! Z.to_nat label = Some q
    /\ q = exp (- x).
Proof.
  intros Hm _ Hlg Hp Hxs Hx.
  apply construct_inr in Hm
    as (T & V & E & n & _ & _ & _ & _ & _ & _ & _ & _ & _ & Hpred & _).
  rewrite Hpred in Hp. unfold prediction in Hp. rewrite Hlg in Hp.
  injection Hp as <-. unfold entry in *.
  match type of Hx with
  | match ?X with _ => _ end = _ =>
      destruct X as [xrow|] eqn:Hxrow; [|discriminate]
  end.
  unfold TF.cross_entropies in Hxs. apply mapM_Some in Hxs.
  destruct (Forall2_lookup_r _ _ _ _ _ Hxs Hxrow)
    as ([rows labels] & Hpair & Hrow).
  apply lookup_zip_with_Some in Hpair
    as (rows' & labels' & [= <- <-] & Hrows & Hlabels).
  apply mapM_Some in Hrow.
  destruct (Forall2_lookup_r _ _ _ _ _ Hrow Hx)
    as ([row label] & Hpair & Hce).
  apply lookup_zip_with_Some in Hpair
    as (row' & label' & [= <- <-] & Hrowt & Hlabel).
  apply cross_entropy_softmax in Hce as (q & Hq & Hexp).
  exists label, (TF.softmax row), q. rewrite Hlabels.
  rewrite (lookup_map_Some (map TF.softmax) lg b rows Hrows).
  split; [exact Hlabel|].
  split; [exact (lookup_map_Some TF.softmax rows t row Hrowt)|]. auto.
Qed.

End Likelihood.

(** ** Causality *)

Section Causality.

Import Model.
Local Open Scope string_scope.

Variable impl : CellImpl.
Variable gradients : (Values -> option R) -> list string -> Values -> list tensor.

Lemma entry_map {A B : Type} (f : A -> B) (x : list (list A)) b t :
  entry (map (map f) x) b t = f <$> entry x b t.
Proof.
  unfold entry. rewrite lookup_map.
  destruct (x !! b) as [s|]; cbn; [apply lookup_map|reflexivity].
Qed.

Lemma entry_imap {A B : Type} (g : nat -> nat -> A -> B) (x : list (list A))
    b t :
  entry (imap (fun b s => imap (g b) s) x) b t = g b t <$> entry x b t.
Proof.
  unfold entry. rewrite list_lookup_imap.
  destruct (x !! b) as [s|]; cbn; [apply list_lookup_imap|reflexivity].
Qed.

Lemma entry_mapM {A B : Type} (f : A -> option B) (ids : list (list A)) x :
  mapM (mapM f) ids = Some x ->
  length x = length ids
  /\ forall b t, entry x b t = entry ids b t ≫= f.
Proof.
  intros H. apply mapM_Some in H. split.
  - symmetry. eapply Forall2_length, H.
  - intros b t. unfold entry.
    pose proof (proj1 (Forall2_lookup _ _ _) H b) as Hb.
    destruct Hb as [s r Hs|]; [|reflexivity].
    apply mapM_Some in Hs.
    pose proof (proj1 (Forall2_lookup _ _ _) Hs t) as Ht.
    destruct Ht as [id v Hv|]; [|reflexivity]. cbn. now rewrite Hv.
Qed.

Lemma agree_until_map {A B : Type} (f : A -> B) k (x1 x2 : list (list A)) :
  agree_until k x1 x2 -> agree_until k (map (map f) x1) (map (map f) x2).
Proof.
  intros [Hlen H]. split; [now rewrite !length_map|].
  intros b t Ht. now rewrite !entry_map, H.
Qed.

Lemma agree_until_imap {A B : Type} (g : nat -> nat -> A -> B) k
    (x1 x2 : list (list A)) :
  agree_until k x1 x2 ->
  agree_until k (imap (fun b s => imap (g b) s) x1)
              (imap (fun b s => imap (g b) s) x2).
Proof.
  intros [Hlen H]. split; [now rewrite !length_imap|].
  intros b t Ht. now rewrite !entry_imap, H.
Qed.

Lemma agree_until_mapM {A B : Type} (f : A -> option B) k
    (ids1 ids2 : list (list A)) x1 x2 :
  agree_until k ids1 ids2 ->
  mapM (mapM f) ids1 = Some x1 -> mapM (mapM f) ids2 = Some x2 ->
  agree_until k x1 x2.
Proof.
  intros [Hlen H] H1 H2.
  apply entry_mapM in H1 as [Hl1 H1]. apply entry_mapM in H2 as [Hl2 H2].
  split; [congruence|]. intros b t Ht. now rewrite H1, H2, H.
Qed.

(** The slices of the timesteps before [k]. *)
Lemma slice_agree k (x1 x2 : list mat) t :
  agree_until k x1 x2 -> (t < k)%nat -> slice x1 t = slice x2 t.
Proof.
  intros [Hlen H] Ht. unfold slice. apply list_eq. intros b.
  rewrite !lookup_map. unfold mat, vec in *. specialize (H b t Ht). unfold entry in H.
  destruct (x1 !! b) as [s1|] eqn:H1, (x2 !! b) as [s2|] eqn:H2;
    cbn [fmap option_fmap option_map].
  - now rewrite !nth_lookup, H.
  - apply lookup_lt_Some in H1. apply lookup_ge_None in H2. lia.
  - apply lookup_lt_Some in H2. apply lookup_ge_None in H1. lia.
  - reflexivity.
Qed.

Lemma unroll_steps_agree r1 r2 cs (x1 x2 : list mat) steps state outs :
  Forall2 (calls_agree impl r1 r2) cs cs ->
  Forall (fun t => slice x1 t = slice x2 t) steps ->
  unroll impl "stacked_lstm" r1 cs x1 steps state outs
  = unroll impl "stacked_lstm" r2 cs x2 steps state outs.
Proof.
  intros Hcs Hsteps. revert state outs.
  induction Hsteps as [|t steps Ht _ IH]; intros state outs; [reflexivity|].
  cbn [unroll]. rewrite Ht.
  rewrite (multi_call_agree impl r1 r2 t 0 cs cs) by exact Hcs.
  destruct (multi_call _ _ _ _ _ _ _ _) as [out state']. apply IH.
Qed.

Lemma unroll_app scope run cs x steps1 steps2 state outs :
  unroll impl scope run cs x (steps1 ++ steps2) state outs
  = unroll impl scope run cs x steps2
           (unroll impl scope run cs x steps1 state outs).2
           (unroll impl scope run cs x steps1 state outs).1.
Proof.
  revert state outs.
  induction steps1 as [|t steps1 IH]; intros state outs; [reflexivity|].
  cbn [app unroll]. destruct (multi_call _ _ _ _ _ _ _ _) as [out state'].
  apply IH.
Qed.

Lemma unroll_keeps scope run cs x steps state outs :
  exists more,
    (unroll impl scope run cs x steps state outs).1 = (outs ++ more)%list.
Proof.
  revert state outs.
  induction steps as [|t steps IH]; intros state outs.
  - exists []. cbn. now rewrite app_nil_r.
  - cbn [unroll]. destruct (multi_call _ _ _ _ _ _ _ _) as [out state'].
    destruct (IH state' (outs ++ [out])%list) as [more ->].
    exists (out :: more). now rewrite <- app_assoc.
Qed.

(** The outputs of the first [k] timesteps of the loop only depend on
    the inputs of these timesteps. *)
Lemma unroll_causal r1 r2 cs (x1 x2 : list mat) k T state t :
  Forall2 (calls_agree impl r1 r2) cs cs ->
  agree_until k x1 x2 -> (t < k)%nat ->
  (unroll impl "stacked_lstm" r1 cs x1 (seq 0 T) state []).1 !! t
  = (unroll impl "stacked_lstm" r2 cs x2 (seq 0 T) state []).1 !! t.
Proof.
  intros Hcs Hx Ht.
  destruct (le_lt_dec T k) as [HTk|HkT].
  - rewrite (unroll_steps_agree r1 r2 cs x1 x2); [reflexivity|exact Hcs|].
    apply Forall_forall. intros s Hs. apply elem_of_seq in Hs.
    apply (slice_agree k); [exact Hx|lia].
  - replace T with (k + (T - k))%nat by lia. rewrite seq_app, !unroll_app.
    rewrite (unroll_steps_agree r1 r2 cs x1 x2 (seq 0 k)); [|exact Hcs|].
    + destruct (unroll impl "stacked_lstm" r2 cs x2 (seq 0 k) state [])
        as [oa sa] eqn:Ha.
      assert (length oa = k) as Hoa.
      { pose proof (unroll_outputs impl "stacked_lstm" r2 cs x2 (seq 0 k)
                      state []) as Hl.
        rewrite Ha, length_seq in Hl. exact Hl. }
      cbn [fst snd].
      destruct (unroll_keeps "stacked_lstm" r1 cs x1 (seq (0 + k) (T - k))
                  sa oa) as [m1 ->].
      destruct (unroll_keeps "stacked_lstm" r2 cs x2 (seq (0 + k) (T - k))
                  sa oa) as [m2 ->].
      now rewrite !lookup_app_l by lia.
    + apply Forall_forall. intros s Hs. apply elem_of_seq in Hs.
      apply (slice_agree k); [exact Hx|lia].
Qed.

(** Row [b * T + t] of the concatenation of sequences of [T] rows. *)
Lemma lookup_concat_rows {A : Type} (X : list (list A)) T b t :
  Forall (fun s => length s = T) X -> (t < T)%nat ->
  concat X !! (b * T + t)%nat = entry X b t.
Proof.
  intros HX Ht. revert b.
  induction HX as [|s X Hs _ IH]; intros b; [reflexivity|].
  cbn [concat]. destruct b as [|b].
  - cbn [Nat.mul Nat.add]. unfold entry. cbn [lookup list_lookup].
    apply lookup_app_l. lia.
  - rewrite lookup_app_r by lia.
    replace (S b * T + t - length s)%nat with (b * T + t)%nat by lia.
    apply IH.
Qed.

Lemma entry_stack1 B (outs : list mat) b t :
  entry (TF.stack1 B outs) b t
  = if decide (b < B)%nat then (fun o => nth b o []) <$> outs !! t else None.
Proof.
  unfold entry, TF.stack1. rewrite lookup_map. case_decide as Hb.
  - rewrite lookup_seq_lt by exact Hb. cbn [fmap option_fmap option_map].
    apply lookup_map.
  - rewrite lookup_seq_ge by lia. reflexivity.
Qed.

(** Stacking and flattening the outputs of the loop. *)
Lemma flatten_causal B T k (o1 o2 : list mat) :
  length o1 = T -> length o2 = T ->
  (forall t, (t < k)%nat -> o1 !! t = o2 !! t) ->
  rows_agree_until T k (TF.flatten_batch (TF.stack1 B o1))
                   (TF.flatten_batch (TF.stack1 B o2)).
Proof.
  intros H1 H2 H. split; [now rewrite !stack1_rows, H1, H2|].
  intros b t Htk HtT. unfold TF.flatten_batch.
  assert (forall o : list mat, length o = T ->
            Forall (fun s => length s = T) (TF.stack1 B o)) as Hrows.
  { intros o Ho. apply Forall_forall. intros s Hs. unfold TF.stack1 in Hs.
    apply list_elem_of_fmap in Hs as (b' & -> & _).
    now rewrite length_map. }
  rewrite !lookup_concat_rows by auto.
  now rewrite !entry_stack1, H.
Qed.

Lemma rows_agree_until_map {A B : Type} (f : A -> B) T k (y1 y2 : list A) :
  rows_agree_until T k y1 y2 -> rows_agree_until T k (map f y1) (map f y2).
Proof.
  intros [Hlen H]. split; [now rewrite !length_map|].
  intros b t Htk HtT. now rewrite !lookup_map, H.
Qed.

Lemma rows_agree_until_imap {A B : Type} (g : nat -> A -> B) T k
    (y1 y2 : list A) :
  rows_agree_until T k y1 y2 ->
  rows_agree_until T k (imap g y1) (imap g y2).
Proof.
  intros [Hlen H]. split; [now rewrite !length_imap|].
  intros b t Htk HtT. now rewrite !list_lookup_imap, H.
Qed.

Lemma entry_reshape3 B T (y : mat) b t :
  entry (TF.reshape3 B T y) b t
  = if decide (b < B /\ t < T)%nat then y !! (b * T + t)%nat else None.
Proof.
  unfold entry, TF.reshape3. rewrite lookup_map.
  destruct (decide (b < B)%nat) as [Hb|Hb].
  - rewrite lookup_seq_lt by exact Hb. cbn [fmap option_fmap option_map].
    rewrite lookup_take. rewrite lookup_drop.
    destruct (decide (t < T)%nat); [rewrite decide_True by auto
                                   |rewrite decide_False by tauto];
      reflexivity.
  - rewrite lookup_seq_ge by lia. rewrite decide_False by tauto. reflexivity.
Qed.

Lemma reshape3_causal B T k (y1 y2 : mat) :
  rows_agree_until T k y1 y2 ->
  agree_until k (TF.reshape3 B T y1) (TF.reshape3 B T y2).
Proof.
  intros [Hlen H]. split.
  - unfold TF.reshape3. now rewrite !length_map.
  - intros b t Ht. rewrite !entry_reshape3.
    case_decide as Hbt; [|reflexivity]. apply H; [exact Ht|tauto].
Qed.

(** Feeding other tokens does not change what the cells compute on an
    input. *)
Lemma with_inputs_cells self run ids :
  Forall2 (calls_agree impl run (with_inputs run ids))
          (stacked self) (stacked self).
Proof.
  unfold stacked. cbn [seq map].
  repeat constructor; intros i t x st; reflexivity.
Qed.

(** The hidden outputs of the first [k] timesteps only depend on the
    tokens of these timesteps. *)
Lemma layer_causal self T k run ids2 y1 y2 :
  agree_until k (feed_inputs (feed run)) ids2 ->
  layer impl self embedding_var T run = Some y1 ->
  layer impl self embedding_var T (with_inputs run ids2) = Some y2 ->
  rows_agree_until T k y1 y2.
Proof.
  intros Hids H1 H2.
  unfold layer, outputs, unrolled, initial_state, inputs, batch_size,
    embedded, embedding_var in H1, H2.
  cbn [with_inputs feed feed_inputs values] in H2.
  destruct (TF.embedding_lookup (as_mat (values run "embedding"))
              (feed_inputs (feed run))) as [x1|] eqn:Hx1; [|discriminate].
  destruct (TF.embedding_lookup (as_mat (values run "embedding")) ids2)
    as [x2|] eqn:Hx2; [|discriminate].
  cbn [mbind option_bind _batch_size] in H1, H2.
  injection H1 as <-. injection H2 as <-.
  assert (agree_until k x1 x2) as Hx
    by exact (agree_until_mapM _ k _ _ x1 x2 Hids Hx1 Hx2).
  assert (length x2 = length x1) as -> by (symmetry; apply Hx).
  change (__keep_prob self (with_inputs run ids2)) with (__keep_prob self run).
  change (rnd (with_inputs run ids2)) with (rnd run).
  set (kp := __keep_prob self run).
  apply (rows_agree_until_imap
           (fun i row => TF.dropout_vec row kp
                           (fun ix => rnd run OutputDropout (i :: ix)))).
  apply flatten_causal.
  - now rewrite unroll_outputs, length_seq.
  - now rewrite unroll_outputs, length_seq.
  - intros t Ht.
    apply (unroll_causal run (with_inputs run ids2) (stacked self) _ _ k);
      [apply with_inputs_cells| |exact Ht].
    exact (agree_until_imap
             (fun b t row => TF.dropout_vec row kp
                               (fun ix => rnd run InputDropout (b :: t :: ix)))
             k x1 x2 Hx).
Qed.

Lemma projected_causal self T V k run ids2 z1 z2 :
  _batch_norm_decay self = None \/ is_train_of run = false ->
  agree_until k (feed_inputs (feed run)) ids2 ->
  projected impl self T V run = Some z1 ->
  projected impl self T V (with_inputs run ids2) = Some z2 ->
  rows_agree_until T k z1 z2.
Proof.
  intros Hbn Hids H1 H2. unfold projected in H1, H2.
  destruct (_batch_norm_decay self) as [decay|].
  - destruct Hbn as [|Htrain]; [discriminate|].
    unfold batch_normalized, matmul_node in H1, H2.
    change (is_train_of (with_inputs run ids2)) with (is_train_of run) in H2.
    change (values (with_inputs run ids2)) with (values run) in H2.
    rewrite Htrain in H1, H2.
    destruct (layer impl self embedding_var T run) as [y1|] eqn:Hy1;
      [|discriminate].
    destruct (layer impl self embedding_var T (with_inputs run ids2))
      as [y2|] eqn:Hy2; [|discriminate].
    cbn [mbind option_bind] in H1, H2. injection H1 as <-. injection H2 as <-.
    unfold TF.batch_norm, TF.matmul.
    apply rows_agree_until_map, rows_agree_until_map.
    exact (layer_causal self T k run ids2 y1 y2 Hids Hy1 Hy2).
  - unfold add_node, matmul_node in H1, H2.
    change (values (with_inputs run ids2)) with (values run) in H2.
    destruct (layer impl self embedding_var T run) as [y1|] eqn:Hy1;
      [|discriminate].
    destruct (layer impl self embedding_var T (with_inputs run ids2))
      as [y2|] eqn:Hy2; [|discriminate].
    cbn [mbind option_bind] in H1, H2. injection H1 as <-. injection H2 as <-.
    unfold TF.add, TF.matmul.
    apply rows_agree_until_map, rows_agree_until_map.
    exact (layer_causal self T k run ids2 y1 y2 Hids Hy1 Hy2).
Qed.

(** X11. When no batch normalisation is configured, or outside training, the
    prediction is causal: on two batches of tokens that agree on their
    first [k] timesteps, with the same values of the variables and the
    same draws of the dropouts, the predictions agree on the first [k]
    timesteps.  What the model predicts at a timestep does not depend on
    the tokens that follow. *)
Theorem prediction_is_causal (config : gmap string nat) (o : Options)
    (m : LSTMLanguageModel) (run : Run) (ids2 : list (list Z)) (k : nat)
    (p1 p2 : list mat) :
  construct impl gradients config o = inr m ->
  batch_norm o = None \/ is_train_of run = false ->
  0 < __keep_prob (settings m) run ->
  agree_until k (feed_inputs (feed run)) ids2 ->
  _prediction (network m) run = Some p1 ->
  _prediction (network m) (with_inputs run ids2) = Some p2 ->
  agree_until k p1 p2.
Proof.
  intros Hm Hbn _ Hids H1 H2.
  apply construct_inr in Hm
    as (T & V & E & n & _ & _ & _ & _ & Hs & _ & _ & _ & Hlogit & Hpred & _).
  assert (_batch_norm_decay (settings m) = batch_norm o) as Hdecay
    by now rewrite Hs.
  rewrite <- Hdecay in Hbn.
  rewrite Hpred, Hlogit in H1, H2. unfold prediction, reshaped in H1, H2.
  destruct (projected impl (settings m) T V run) as [z1|] eqn:Hz1;
    [|discriminate].
  destruct (projected impl (settings m) T V (with_inputs run ids2))
    as [z2|] eqn:Hz2; [|discriminate].
  cbn [mbind option_bind] in H1, H2.
  destruct (batch_size embedding_var run) as [B1|] eqn:HB1; [|discriminate].
  destruct (batch_size embedding_var (with_inputs run ids2)) as [B2|] eqn:HB2;
    [|discriminate].
  cbn [mbind option_bind] in H1, H2. injection H1 as <-. injection H2 as <-.
  assert (B2 = B1) as ->.
  { unfold batch_size, embedded in HB1, HB2.
    cbn [with_inputs feed feed_inputs values] in HB2.
    destruct (TF.embedding_lookup _ (feed_inputs (feed run))) as [x1|] eqn:Hx1;
      [|discriminate].
    destruct (TF.embedding_lookup _ ids2) as [x2|] eqn:Hx2; [|discriminate].
    cbn [mbind option_bind _batch_size] in HB1, HB2.
    injection HB1 as <-. injection HB2 as <-.
    apply length_mapM in Hx1, Hx2. destruct Hids as [Hlen _]. congruence. }
  apply agree_until_map, reshape3_causal.
  exact (projected_causal (settings m) T V k run ids2 z1 z2 Hbn Hids Hz1 Hz2).
Qed.

End Causality.

Section PredictionExamples.

Import Model Examples.
Local Open Scope string_scope.

Lemma one_token_valid is_train u :
  valid_tokens (as_mat (values (one_token is_train u) "embedding"))
               (feed_inputs (feed (one_token is_train u))).
Proof.
  repeat constructor; cbn; lia.
Qed.

Lemma one_token_steps is_train u :
  Forall (fun s => length s = 1%nat)
         (feed_inputs (feed (one_token is_train u))).
Proof.
  repeat constructor.
Qed.

Lemma one_token_keeps o m is_train u :
  0 < keep_prob o ->
  construct cells_py steep tiny_config o = inr m ->
  0 < __keep_prob (settings m) (one_token is_train u).
Proof.
  intros Hp Hm.
  apply construct_inr in Hm as (T & V & E & n & _ & _ & _ & _ & -> & _).
  unfold __keep_prob, TF.where_. cbn [settings_of _keep_prob].
  destruct (is_train_of _); lra.
Qed.

(** The witness of X1: one valid token outside training. *)
Lemma prediction_iff_valid_tokens_witness :
  exists m,
    let run := one_token None quiet in
    construct cells_py steep tiny_config regularized = inr m
    /\ tiny_config !! "num_steps" = Some 1%nat
    /\ Forall (fun s => length s = 1%nat) (feed_inputs (feed run))
    /\ (is_Some (_prediction (network m) run)
        <-> valid_tokens (as_mat (values run "embedding"))
                         (feed_inputs (feed run))).
Proof.
  eexists. cbv zeta. split; [reflexivity|]. split; [reflexivity|].
  split; [apply one_token_steps|].
  exact (prediction_iff_valid_tokens cells_py steep tiny_config regularized _
           (one_token None quiet) 1 eq_refl eq_refl
           (one_token_steps None quiet)).
Defined.

(** The witness of X2: a training run with dropout. *)
Lemma prediction_rows_are_distributions_witness :
  exists m p,
    let run := one_token (Some true) noisy in
    construct cells_py steep tiny_config regularized = inr m
    /\ 0 < __keep_prob (settings m) run
    /\ _prediction (network m) run = Some p
    /\ Forall (Forall (fun row => row = [] \/ distribution row)) p.
Proof.
  assert (0 < keep_prob regularized) as Hp by (cbn; lra).
  do 2 eexists. cbv zeta. split; [reflexivity|].
  split; [exact (one_token_keeps regularized _ (Some true) noisy Hp eq_refl)|].
  split; [reflexivity|].
  exact (prediction_rows_are_distributions cells_py steep tiny_config
           regularized _ (one_token (Some true) noisy) _ eq_refl
           (one_token_keeps regularized _ (Some true) noisy Hp eq_refl)
           eq_refl).
Defined.

(** The witness of X3: one sequence of one token over two words. *)
Lemma prediction_shape_witness :
  exists m,
    let run := one_token None quiet in
    construct cells_py steep tiny_config regularized = inr m
    /\ tiny_config !! "num_steps" = Some 1%nat
    /\ tiny_config !! "vocab_size" = Some 2%nat
    /\ Forall (fun s => length s = 1%nat) (feed_inputs (feed run))
    /\ valid_tokens (as_mat (values run "embedding")) (feed_inputs (feed run))
    /\ Forall (fun row => length row = 2%nat)
              (as_mat (values run "fully_connected/fc/weight"))
    /\ (batch_norm regularized = None ->
        length (as_vec (values run "fully_connected/fc/bias")) = 2%nat)
    /\ exists p,
         _prediction (network m) run = Some p
         /\ has_shape (length (feed_inputs (feed run))) 1 2 p.
Proof.
  assert (Forall (fun row : vec => length row = 2%nat)
                 (as_mat (values (one_token None quiet)
                                 "fully_connected/fc/weight"))) as HW.
  { repeat constructor. }
  eexists. cbv zeta. split; [reflexivity|].
  split; [reflexivity|]. split; [reflexivity|].
  split; [apply one_token_steps|].
  split; [apply one_token_valid|]. split; [exact HW|].
  split; [intros _; reflexivity|].
  exact (prediction_shape cells_py steep tiny_config regularized _
           (one_token None quiet) 1 2 eq_refl eq_refl eq_refl
           (one_token_steps None quiet) (one_token_valid None quiet) HW
           (fun _ => eq_refl)).
Defined.

End PredictionExamples.

Section ClippingExamples.

Import Model Examples.
Local Open Scope string_scope.

Lemma level_norm (names : list string) :
  TF.global_norm (map (fun _ => Vec [0; 0]) names) = 0.
Proof.
  unfold TF.global_norm.
  assert (TF.squares (map (fun _ : string => Vec [0; 0]) names) = 0) as ->.
  { unfold TF.squares. induction names as [|a names IH]; cbn [map];
      [reflexivity|].
    rewrite vsum_cons, IH. cbn. lra. }
  apply sqrt_0.
Qed.

Lemma steep_norm (names : list string) :
  names <> [] -> 1 <= TF.global_norm (map (fun _ => Vec [3; 4]) names).
Proof.
  intros Hn. destruct names as [|a names]; [congruence|].
  unfold TF.global_norm. rewrite <- sqrt_1 at 1. apply sqrt_le_1_alt.
  unfold TF.squares. cbn [map]. rewrite vsum_cons.
  fold (TF.squares (map (fun _ : string => Vec [3; 4]) names)).
  pose proof (total_squares_nonneg (map (fun _ : string => Vec [3; 4]) names)).
  cbn [as_vec map]. rewrite !vsum_cons. cbn [vsum foldr]. lra.
Qed.

(** The witness of X4: vanishing gradients under a threshold of one. *)
Lemma clip_within_threshold_witness :
  exists m l,
    let run := one_token (Some true) quiet in
    let names := map var_name (trainable_variables (variables m)) in
    let grads := loss_gradients level (_loss (network m)) names run in
    construct cells_py level tiny_config regularized = inr m
    /\ gradient_clip regularized = Some 1
    /\ 0 < 1
    /\ _loss (network m) run = Some l
    /\ TF.global_norm grads <= 1
    /\ _train_op (network m) run
       = Some (TF.apply_gradients (learning_rate regularized)
                                  (zip grads names) (values run)).
Proof.
  assert (forall names : list string,
            TF.global_norm (map (fun _ => Vec [0; 0]) names) <= 1) as Hn.
  { intros names. rewrite level_norm. lra. }
  do 2 eexists. cbv zeta.
  split; [reflexivity|]. split; [reflexivity|]. split; [exact Rlt_0_1|].
  split; [reflexivity|]. split; [apply Hn|].
  exact (clip_within_threshold cells_py level tiny_config regularized _
           (one_token (Some true) quiet) _ 1 eq_refl eq_refl Rlt_0_1 eq_refl
           (Hn _)).
Defined.

(** The witness of X5: gradients of norm five on every variable under a threshold of one. *)
Lemma clip_beyond_threshold_witness :
  exists m l,
    let run := one_token (Some true) quiet in
    let names := map var_name (trainable_variables (variables m)) in
    let grads := loss_gradients steep (_loss (network m)) names run in
    let applied := map (tmap (fun x => x * (1 / TF.global_norm grads))) grads in
    construct cells_py steep tiny_config regularized = inr m
    /\ gradient_clip regularized = Some 1
    /\ 0 < 1
    /\ _loss (network m) run = Some l
    /\ 1 <= TF.global_norm grads
    /\ _train_op (network m) run
       = Some (TF.apply_gradients (learning_rate regularized)
                                  (zip applied names) (values run))
    /\ TF.global_norm applied = 1.
Proof.
  do 2 eexists. cbv zeta.
  split; [reflexivity|]. split; [reflexivity|]. split; [exact Rlt_0_1|].
  split; [reflexivity|].
  match goal with
  | |- ?A /\ _ => assert A as Hn by (apply steep_norm; discriminate)
  end.
  split; [exact Hn|].
  exact (clip_beyond_threshold cells_py steep tiny_config regularized _
           (one_token (Some true) quiet) _ 1 eq_refl eq_refl Rlt_0_1 eq_refl
           Hn).
Defined.

End ClippingExamples.

Section LossSignExamples.

Import Model Examples.
Local Open Scope string_scope.

(** The witness of X6: the regularised model in training mode. *)
Lemma loss_nonnegative_witness :
  exists m l,
    let run := one_token (Some true) noisy in
    construct cells_py steep tiny_config regularized = inr m
    /\ 0 <= weight_decay regularized
    /\ 0 < __keep_prob (settings m) run
    /\ _loss (network m) run = Some l
    /\ 0 <= l.
Proof.
  assert (0 <= weight_decay regularized) as Hwd by (cbn; lra).
  assert (0 < keep_prob regularized) as Hp by (cbn; lra).
  do 2 eexists. cbv zeta. split; [reflexivity|]. split; [exact Hwd|].
  split; [exact (one_token_keeps regularized _ (Some true) noisy Hp eq_refl)|].
  split; [reflexivity|].
  exact (loss_nonnegative cells_py steep tiny_config regularized _
           (one_token (Some true) noisy) _ eq_refl Hwd
           (one_token_keeps regularized _ (Some true) noisy Hp eq_refl)
           eq_refl).
Defined.

End LossSignExamples.

Section ConstructionExamples.

Import Model Examples.
Local Open Scope string_scope.

Lemma tiny_hyper_keys :
  type_of_lstm hypernets = Some "hypernets" ->
  is_Some (tiny_config !! "n_hidden_hyper")
  /\ is_Some (tiny_config !! "n_embedding_hyper").
Proof. intros _. split; eexists; reflexivity. Qed.

(** The witness of X7: the hypernetwork variant. *)
Lemma construction_succeeds_iff_witness :
  tiny_config !! "num_steps" = Some 1%nat
  /\ tiny_config !! "vocab_size" = Some 2%nat
  /\ tiny_config !! "embedding_size" = Some 1%nat
  /\ tiny_config !! "n_hidden" = Some 1%nat
  /\ (type_of_lstm hypernets = Some "hypernets" ->
      is_Some (tiny_config !! "n_hidden_hyper")
      /\ is_Some (tiny_config !! "n_embedding_hyper"))
  /\ (0 < 1)%nat
  /\ load_model hypernets = None
  /\ ((exists m, construct cells_py steep tiny_config hypernets = inr m)
      <-> distinct_names
            (graph_variables cells_py (settings_of tiny_config hypernets 1)
                             1 2 1 1)).
Proof.
  split; [reflexivity|]. split; [reflexivity|]. split; [reflexivity|].
  split; [reflexivity|]. split; [exact tiny_hyper_keys|].
  split; [exact Nat.lt_0_1|]. split; [reflexivity|].
  exact (construction_succeeds_iff cells_py steep tiny_config hypernets
           1 2 1 1 eq_refl eq_refl eq_refl eq_refl tiny_hyper_keys
           Nat.lt_0_1 eq_refl).
Defined.


(** The witness of X9: a second layer under the scope of the projection. *)
Lemma full_connected_twice_witness :
  exists y st',
    Some "fc" <> Some EmptyString
    /\ _full_connected "fully_connected/" (fun _ => Some [[1]]) [1; 2]%nat
                       (Some "fc") true (Xavier 0) [] = inr (y, st')
    /\ _full_connected "fully_connected/" (fun _ => Some [[1; 1]]) [2; 3]%nat
                       (Some "fc") false (Xavier 1) st'
       = inl (ValueError "fully_connected/fc/weight").
Proof.
  assert (Some "fc" <> Some EmptyString) as Hscope by discriminate.
  do 2 eexists. split; [exact Hscope|]. split; [lazy; reflexivity|].
  exact (full_connected_twice "fully_connected/" (Some "fc")
           (fun _ => Some [[1]]) (fun _ => Some [[1; 1]]) [1; 2]%nat
           [2; 3]%nat true false (Xavier 0) (Xavier 1) [] _ _ Hscope
           eq_refl).
Defined.

(** The witness of X10: the token of a batch of one. *)
Lemma cross_entropy_of_prediction_witness :
  exists m lg p xs x,
    let run := one_token None quiet in
    construct cells_py steep tiny_config regularized = inr m
    /\ 0 < __keep_prob (settings m) run
    /\ logit (network m) run = Some lg
    /\ _prediction (network m) run = Some p
    /\ TF.cross_entropies lg (feed_targets (feed run)) = Some xs
    /\ entry xs 0 0 = Some x
    /\ exists label row q,
         entry (feed_targets (feed run)) 0 0 = Some label
         /\ entry p 0 0 = Some row
         /\ row !! Z.to_nat label = Some q
         /\ q = exp (- x).
Proof.
  assert (0 < keep_prob regularized) as Hp by (cbn; lra).
  do 5 eexists. cbv zeta. split; [reflexivity|].
  split; [exact (one_token_keeps regularized _ None quiet Hp eq_refl)|].
  split; [reflexivity|]. split; [reflexivity|]. split; [reflexivity|].
  split; [reflexivity|].
  exact (cross_entropy_of_prediction cells_py steep tiny_config regularized _
           (one_token None quiet) _ _ _ 0 0 _ eq_refl
           (one_token_keeps regularized _ None quiet Hp eq_refl)
           eq_refl eq_refl eq_refl eq_refl).
Defined.

End ConstructionExamples.

Section CausalityExamples.

Import Model Examples.
Local Open Scope string_scope.

Lemma two_tokens_agree :
  agree_until 1 (feed_inputs (feed two_tokens)) [[0%Z; 0%Z]].
Proof.
  split; [reflexivity|]. intros b t Ht.
  destruct t as [|t]; [|lia]. destruct b as [|b]; reflexivity.
Qed.

Lemma two_tokens_keep m :
  construct cells_py steep two_steps regularized = inr m ->
  0 < __keep_prob (settings m) two_tokens.
Proof.
  intros Hm.
  apply construct_inr in Hm as (T & V & E & n & _ & _ & _ & _ & -> & _).
  unfold __keep_prob, TF.where_. cbn [settings_of _keep_prob regularized
    keep_prob]. destruct (is_train_of _); lra.
Qed.

(** The witness of X11: two sequences that differ in their second token. *)
Lemma prediction_is_causal_witness :
  exists m p1 p2,
    construct cells_py steep two_steps regularized = inr m
    /\ (batch_norm regularized = None \/ is_train_of two_tokens = false)
    /\ 0 < __keep_prob (settings m) two_tokens
    /\ agree_until 1 (feed_inputs (feed two_tokens)) [[0%Z; 0%Z]]
    /\ _prediction (network m) two_tokens = Some p1
    /\ _prediction (network m) (with_inputs two_tokens [[0%Z; 0%Z]])
       = Some p2
    /\ agree_until 1 p1 p2.
Proof.
  do 3 eexists. split; [reflexivity|]. split; [left; reflexivity|].
  split; [exact (two_tokens_keep _ eq_refl)|].
  split; [exact two_tokens_agree|].
  split; [reflexivity|]. split; [reflexivity|].
  exact (prediction_is_causal cells_py steep two_steps regularized _
           two_tokens [[0%Z; 0%Z]] 1 _ _ eq_refl (or_introl eq_refl)
           (two_tokens_keep _ eq_refl) two_tokens_agree eq_refl eq_refl).
Defined.

End CausalityExamples.
